(** * Subspace Outlier Detection (pyod/models/sod.py)

    A shallow embedding of the SOD detector: the shared-nearest-neighbour
    reference-set builder [_snn_imp], the subspace scorer [_sod], the
    constructor [SOD.__init__] and the entry points [fit] and
    [decision_function].

    Conventions.
    - numpy integer arrays are lists of [Z]; a [uint32] store is written
      with its wrap-around ([to_uint32]).
    - numpy float64 arithmetic is idealised as arithmetic over the real
      numbers [R]; rounding and overflow are outside this model.  What
      depends on them (NaN, infinities) is stated on a second embedding
      of the scorer, on binary64 numbers ([Float64]).
    - an exception is [None]. *)

From Stdlib Require Import ZArith List Sorted Reals Lra Lia.
From Stdlib Require Floats Uint63.
From stdpp Require Import base gmap sets list.

(** ** Loops over an array *)

(** One iteration of a loop that computes [cell i] and stores it in slot
    [i] of the array [acc]; [None] once an iteration has raised. *)
Definition fill_step {A} (cell : nat → option A)
    (acc : option (list A)) (i : nat) : option (list A) :=
  match acc with
  | None => None
  | Some c => match cell i with
              | None => None
              | Some x => Some (<[i := x]> c)
              end
  end.

(** ** The SNN reference-set builder: [_snn_imp] *)
Module SNN.

Local Open Scope Z_scope.

(** [np.iinfo(np.uint32).max] *)
Definition UINT32_MAX : Z := 4294967295.

(** A value stored in a [np.uint32] array is reduced modulo [2^32]. *)
Definition to_uint32 (z : Z) : Z := z mod 4294967296.

(** [len(set(row_j).intersection(test_element_set))] *)
Definition shared (row_j test_element : list Z) : Z :=
  Z.of_nat (size ((list_to_set row_j : gset Z) ∩ list_to_set test_element)).

(** two rows with the same neighbours, in any order and multiplicity *)
Definition same_neighbours (a b : list Z) : Prop := ∀ x, x ∈ a ↔ x ∈ b.

(** [np.argsort] is numpy's: it returns the indices that sort its argument
    in ascending order.  Its default kind is an unstable introsort, so only
    these two facts are part of the interface; how ties are ordered is left
    to the instance. *)
Class ArgSort := {
  argsort : list Z → list nat;
  argsort_perm : ∀ l, argsort l ≡ₚ seq 0 (length l);
  argsort_sorted : ∀ l (a b x y : nat),
    (a ≤ b)%nat → argsort l !! a = Some x → argsort l !! b = Some y →
    l !!! x ≤ l !!! y
}.

(** An instance: insertion sort on the indices, the routine numpy and numba
    both fall back to on short arrays.  It is stable. *)
Fixpoint insert_idx (l : list Z) (i : nat) (sorted : list nat) : list nat :=
  match sorted with
  | [] => [i]
  | j :: rest =>
      if (l !!! i) <? (l !!! j) then i :: j :: rest
      else j :: insert_idx l i rest
  end.

Definition argsort_insertion (l : list Z) : list nat :=
  foldl (λ acc i, insert_idx l i acc) [] (seq 0 (length l)).

(** the order [argsort] sorts by *)
Definition by_value (l : list Z) (x y : nat) : Prop := l !!! x ≤ l !!! y.

(** [nb.prange(n)] under [parallel=True]: the iterations [0 .. n-1], each
    run once, in an order the runtime chooses. *)
Class Scheduler := {
  prange : nat → list nat;
  prange_covers : ∀ n i, i ∈ prange n ↔ (i < n)%nat
}.

Section Builder.
Context `{ArgSort} `{Scheduler}.

(** The array [temp] of iteration [i], after line 37: the shared-neighbour
    counts of every row against row [i], with entry [i] overwritten. *)
Definition temp (ind : list (list Z)) (i : nat) : list Z :=
  <[i := UINT32_MAX]> ((λ row_j, to_uint32 (shared row_j (ind !!! i))) <$> ind).

(** [np.argsort(temp)[::-1]] *)
Definition ranking (ind : list (list Z)) (i : nat) : list nat :=
  reverse (argsort (temp ind i)).

(** [a[1:ref_set_ + 1]] *)
Definition slice1 {A} (ref_set_ : nat) (a : list A) : list A :=
  take ref_set_ (drop 1 a).

(** [_count[i] = src]: numpy assignment into a row of [ref_set_] cells.
    A source of the same length is copied, a source of length one is
    broadcast, any other length raises [ValueError]. *)
Definition assign_row (ref_set_ : nat) (src : list Z) : option (list Z) :=
  if decide (length src = ref_set_) then Some src
  else match src with
       | [x] => Some (replicate ref_set_ x)
       | _ => None
       end.

(** The right-hand side of line 38, as stored in the [uint32] matrix. *)
Definition selected (ind : list (list Z)) (ref_set_ i : nat) : list Z :=
  (λ j : nat, to_uint32 (Z.of_nat j)) <$> slice1 ref_set_ (ranking ind i).

(** Line 38: the row computed and assigned by iteration [i]. *)
Definition row_of (ind : list (list Z)) (ref_set_ i : nat) : option (list Z) :=
  assign_row ref_set_ (selected ind ref_set_ i).

(** One iteration of the outer loop on the matrix [_count]. *)
Definition iteration (ind : list (list Z)) (ref_set_ : nat)
    (_count : option (list (list Z))) (i : nat) : option (list (list Z)) :=
  fill_step (row_of ind ref_set_) _count i.

(** Lines 30-40.  The inner [prange] fills [temp], which is private to
    the iteration; the outer one fills the rows of [_count]. *)
Definition _snn_imp (ind : list (list Z)) (ref_set_ : nat)
    : option (list (list Z)) :=
  let n := length ind in
  foldl (iteration ind ref_set_)
        (Some (replicate n (replicate ref_set_ 0)))
        (prange n).

(** The points picked for row [i], as positions of [ind]. *)
Definition picked (ind : list (list Z)) (ref_set_ i : nat) : list nat :=
  slice1 ref_set_ (ranking ind i).

(** The similarity of points [i] and [j]: the number of neighbours the
    rows [i] and [j] of [ind] have in common. *)
Definition similarity (ind : list (list Z)) (i j : nat) : Z :=
  shared (ind !!! j) (ind !!! i).

End Builder.
End SNN.

(** ** The subspace scorer: the numeric kernel of [_sod] *)
Module Scorer.

Local Open Scope R_scope.

#[global] Instance R_inhabited : Inhabited R := populate 0.
#[global] Instance Rle_decision (x y : R) : Decision (x <= y) := Rle_dec x y.
#[global] Instance Rlt_decision (x y : R) : Decision (x < y) := Rlt_dec x y.

(** [np.sum] of a one-dimensional array *)
Definition np_sum (a : list R) : R := foldr Rplus 0 a.

(** [X.shape[1]]; it is only read inside the loop, where [X] has a row. *)
Definition shape1 (X : list (list R)) : nat :=
  match X with
  | [] => 0%nat
  | row :: _ => length row
  end.

(** [X[idx,]]: the rows of [X] at the (unsigned) indices [idx];
    an index past the last row raises [IndexError]. *)
Definition take_rows (X : list (list R)) (idx : list Z) : option (list (list R)) :=
  mapM (λ z, X !! Z.to_nat z) idx.

(** [ref[:, j]] *)
Definition column (ref : list (list R)) (j : nat) : list R :=
  (λ row : list R, row !!! j) <$> ref.

(** [np.mean(ref, axis=0)] for [ref] with [d] columns *)
Definition np_mean_axis0 (d : nat) (ref : list (list R)) : list R :=
  (λ j, np_sum (column ref j) / INR (length ref)) <$> seq 0 d.

(** [np.square(a - means)] for one row [a] *)
Definition square_dev (a means : list R) : list R :=
  zip_with (λ x m, Rsqr (x - m)) a means.

(** [np.var(ref, axis=0)]: numpy's variance, the mean of the squared
    deviations from the mean, with the number of rows as divisor. *)
Definition np_var_axis0 (d : nat) (ref : list (list R)) : list R :=
  (λ j, let c := column ref j in
        let m := np_sum c / INR (length ref) in
        np_sum ((λ x, Rsqr (x - m)) <$> c) / INR (length ref)) <$> seq 0 d.

(** [np.dot(var_inds, b)] with [var_inds] a list of Python ints *)
Definition np_dot (var_inds : list Z) (b : list R) : R :=
  np_sum (zip_with (λ v y, IZR v * y) var_inds b).

Section Point.
(** [self.alpha_], [self.ref_set_], [X.shape[1]] and, for the point at
    hand, [ref = X[ref_inds[i,],]] and [obs = X[i]]. *)
Variables (alpha_ : R) (ref_set_ : Z) (d : nat).
Variable ref : list (list R).

Definition means : list R := np_mean_axis0 d ref.

(** line 191 *)
Definition var_total : R :=
  np_sum (concat ((λ row, square_dev row means) <$> ref)) / IZR ref_set_.

(** line 192 *)
Definition var_expect : R := alpha_ * var_total / INR d.

(** line 193 *)
Definition var_actual : list R := np_var_axis0 d ref.

(** line 194 *)
Definition var_inds : list Z :=
  (λ j, if Rlt_dec j var_expect then 1%Z else 0%Z) <$> var_actual.

(** line 195 *)
Definition rel_dim : Z := foldr Z.add 0%Z var_inds.

(** the argument of [np.sqrt] on lines 197-198 *)
Definition sqrt_arg (obs : list R) : R :=
  np_dot var_inds (square_dev obs means) / IZR rel_dim.

(** The value of [anomaly_scores[i]] after iteration [i]: the cell keeps
    its initial zero unless [rel_dim != 0]. *)
Definition score (obs : list R) : R :=
  if decide (rel_dim ≠ 0%Z) then sqrt (sqrt_arg obs) else 0.

End Point.

(** The score of point [i]: [score] at [obs = X[i]] and
    [ref = X[ref_inds[i,],]]. *)
Definition point (alpha_ : R) (ref_set_ : Z)
    (X : list (list R)) (ref_inds : list (list Z)) (i : nat) : option R :=
  obs ← X !! i;
  idx ← ref_inds !! i;
  ref ← take_rows X idx;
  Some (score alpha_ ref_set_ (shape1 X) ref obs).

(** One iteration of the loop of lines 186-198 on [anomaly_scores]. *)
Definition iteration (alpha_ : R) (ref_set_ : Z)
    (X : list (list R)) (ref_inds : list (list Z))
    (anomaly_scores : option (list R)) (i : nat) : option (list R) :=
  scores ← anomaly_scores;
  obs ← X !! i;
  idx ← ref_inds !! i;
  ref ← take_rows X idx;
  if decide (rel_dim alpha_ ref_set_ (shape1 X) ref ≠ 0%Z)
  then Some (<[i := sqrt (sqrt_arg alpha_ ref_set_ (shape1 X) ref obs)]> scores)
  else Some scores.

(** Lines 185-200, given the reference-set index matrix. *)
Definition sod_loop (alpha_ : R) (ref_set_ : Z)
    (X : list (list R)) (ref_inds : list (list Z)) : option (list R) :=
  foldl (iteration alpha_ ref_set_ X ref_inds)
        (Some (replicate (length X) 0))
        (seq 0 (length X)).

End Scorer.

(** ** The subspace scorer on binary64 numbers

    Lines 185-200 once more, on IEEE 754 binary64 numbers (the primitive
    floats) in place of real numbers, for what depends on rounding,
    overflow, infinities and NaN.  numpy reports floating-point errors
    as warnings: no arithmetic operation of the loop raises. *)
Module Float64.
Import Floats.
Local Open Scope float_scope.

#[global] Instance float_inhabited : Inhabited float := populate 0.

(** numpy's [add.reduce], behind [np.sum], [np.mean], [np.var] and
    [np.dot].  numpy chooses the order of the additions (in blocks, and
    pairwise on long arrays); what is used of it is that the result is
    reached from zero and the entries by additions. *)
Class Reduce := {
  add_reduce : list float → float;
  add_reduce_closed (P : float → Prop) (a : list float) :
    P 0 → (∀ x y, P x → P y → P (x + y)) → Forall P a → P (add_reduce a)
}.

(** The entries added one after another, as numpy does on an array of
    fewer than eight numbers. *)
Definition in_order (a : list float) : float :=
  match a with
  | [] => 0
  | x :: a' => foldl PrimFloat.add x a'
  end.

(** A Python or numpy integer as a binary64 number, rounded to nearest;
    for [z] in the range of [int64]. *)
Definition of_int (z : Z) : float :=
  if (0 <=? z)%Z then of_uint63 (Uint63.of_Z z)
  else - of_uint63 (Uint63.of_Z (- z)).

(** [X.shape[1]] *)
Definition shape1 (X : list (list float)) : nat :=
  match X with
  | [] => 0%nat
  | row :: _ => length row
  end.

(** [X[idx,]] for (unsigned) indices [idx] *)
Definition take_rows (X : list (list float)) (idx : list Z)
    : option (list (list float)) :=
  mapM (λ z, X !! Z.to_nat z) idx.

(** [ref[:, j]] *)
Definition column (ref : list (list float)) (j : nat) : list float :=
  (λ row : list float, row !!! j) <$> ref.

(** [np.square] *)
Definition square (x : float) : float := x * x.

(** [np.square(a - means)] for one row [a] *)
Definition square_dev (a means : list float) : list float :=
  zip_with (λ x m, square (x - m)) a means.

(** [np.dot(var_inds, b)] with [var_inds] a list of Python ints: the
    products, added up *)
Definition np_dot `{!Reduce} (var_inds : list Z) (b : list float) : float :=
  add_reduce (zip_with (λ v y, of_int v * y) var_inds b).

Section Point.
Context `{!Reduce}.
Variables (alpha_ : float) (ref_set_ : Z) (d : nat).
Variable ref : list (list float).

(** [np.mean(ref, axis=0)]: the sum of each column over the number of
    rows *)
Definition np_mean_axis0 : list float :=
  (λ j, add_reduce (column ref j) / of_int (Z.of_nat (length ref)))
    <$> seq 0 d.

(** [np.var(ref, axis=0)] *)
Definition np_var_axis0 : list float :=
  (λ j, let c := column ref j in
        let m := add_reduce c / of_int (Z.of_nat (length ref)) in
        add_reduce ((λ x, square (x - m)) <$> c)
        / of_int (Z.of_nat (length ref))) <$> seq 0 d.

(** line 190 *)
Definition means : list float := np_mean_axis0.

(** line 191 *)
Definition var_total : float :=
  add_reduce (concat ((λ row, square_dev row means) <$> ref))
  / of_int ref_set_.

(** line 192 *)
Definition var_expect : float := alpha_ * var_total / of_int (Z.of_nat d).

(** line 193 *)
Definition var_actual : list float := np_var_axis0.

(** line 194; a comparison with NaN is false *)
Definition var_inds : list Z :=
  (λ j, if j <? var_expect then 1%Z else 0%Z) <$> var_actual.

(** line 195 *)
Definition rel_dim : Z := foldr Z.add 0%Z var_inds.

(** the argument of [np.sqrt] on lines 197-198 *)
Definition sqrt_arg (obs : list float) : float :=
  np_dot var_inds (square_dev obs means) / of_int rel_dim.

(** [anomaly_scores[i]] after iteration [i] *)
Definition score (obs : list float) : float :=
  if decide (rel_dim ≠ 0%Z) then sqrt (sqrt_arg obs) else 0.

End Point.

Section Loop.
Context `{!Reduce}.
Variables (alpha_ : float) (ref_set_ : Z).
Variables (X : list (list float)) (ref_inds : list (list Z)).

Definition point (i : nat) : option float :=
  obs ← X !! i;
  idx ← ref_inds !! i;
  ref ← take_rows X idx;
  Some (score alpha_ ref_set_ (shape1 X) ref obs).

(** One iteration of the loop of lines 186-198 on [anomaly_scores]. *)
Definition iteration (anomaly_scores : option (list float)) (i : nat)
    : option (list float) :=
  scores ← anomaly_scores;
  obs ← X !! i;
  idx ← ref_inds !! i;
  ref ← take_rows X idx;
  if decide (rel_dim alpha_ ref_set_ (shape1 X) ref ≠ 0%Z)
  then Some (<[i := sqrt (sqrt_arg alpha_ ref_set_ (shape1 X) ref obs)]> scores)
  else Some scores.

(** Lines 185-200, given the reference-set index matrix. *)
Definition sod_loop : option (list float) :=
  foldl iteration (Some (replicate (length X) 0)) (seq 0 (length X)).

End Loop.




(** [x] is a zero or NaN *)
Definition zero_or_nan (x : spec_float) : Prop :=
  match x with
  | S754_zero _ | S754_nan => True
  | _ => False
  end.

Definition vanishes (x : float) : Prop := zero_or_nan (Prim2SF x).

End Float64.

(** ** The per-point algorithm in the words of the specification

    Section 4.2, steps 1-7, for a reference set [R] of [r] points in [d]
    dimensions.  These definitions follow the specification, not the
    source; they are what the source is compared with. *)
Module Spec.

Local Open Scope R_scope.
Import Scorer.

Section Point.
Variables (alpha : R) (r d : nat) (R_ : list (list R)) (x : list R).

(** the sum of [f j] over the dimensions [j] in [dims] *)
Definition sum_over (dims : list nat) (f : nat → R) : R :=
  np_sum (f <$> dims).

(** step 1: the column-wise mean *)
Definition mean (j : nat) : R :=
  np_sum ((λ p : list R, p !!! j) <$> R_) / INR r.

(** the squared deviations of dimension [j], summed over the points *)
Definition sq_deviation (j : nat) : R :=
  np_sum ((λ p : list R, Rsqr (p !!! j - mean j)) <$> R_).

(** step 2 *)
Definition var_total : R := sum_over (seq 0 d) sq_deviation / INR r.

(** step 3 *)
Definition var_expect : R := alpha * var_total / INR d.

(** step 4: the population variance of dimension [j] *)
Definition var_actual (j : nat) : R := sq_deviation j / INR r.

(** step 5 *)
Definition relevant (j : nat) : Prop := var_actual j < var_expect.

#[global] Instance relevant_dec j : Decision (relevant j) :=
  Rlt_dec (var_actual j) var_expect.

Definition relevant_dims : list nat := filter relevant (seq 0 d).
Definition rel_dim : nat := length relevant_dims.


(** the full-dimensional root-mean-square distance from the mean *)
Definition rms_full : R :=
  sqrt (/ INR d * sum_over (seq 0 d) (λ j, Rsqr (x !!! j - mean j))).

End Point.
End Spec.

(** ** The detector object: [SOD.__init__], [fit], [decision_function] *)
Module Detector.

Local Open Scope R_scope.

(** Python values a caller can pass to the constructor. *)
Inductive pyval :=
  | PyInt (z : Z)
  | PyBool (b : bool)
  | PyFloat (x : R)
  | PyNone.

(** [isinstance(v, int)]; [bool] is a subclass of [int]. *)
Definition int_value (v : pyval) : option Z :=
  match v with
  | PyInt z => Some z
  | PyBool b => Some (Z.b2z b)
  | _ => None
  end.

(** [isinstance(v, float)] *)
Definition float_value (v : pyval) : option R :=
  match v with
  | PyFloat x => Some x
  | _ => None
  end.

(** Modelled from the spec: [check_parameter] (pyod/utils/utility.py) is
    the range validation of a numeric parameter against [low] and [high];
    it returns or raises [ValueError].  The three calls of [__init__] pass
    neither [include_left] nor [include_right], so all three use the same
    defaults; whether each default bound is inclusive is this interface. *)
Class RangeDefaults := {
  include_left : bool;
  include_right : bool
}.

Definition check_parameter `{RangeDefaults}
    (param low : R) (high : option R) : bool :=
  (if include_left then bool_decide (low <= param)
   else bool_decide (low < param))
  && match high with
     | None => true
     | Some h => if include_right then bool_decide (param <= h)
                 else bool_decide (param < h)
     end.

(** the two halves of a range check under the defaults in force *)
Definition above `{RangeDefaults} (low param : R) : Prop :=
  if include_left then low <= param else low < param.
Definition below `{RangeDefaults} (param high : R) : Prop :=
  if include_right then param <= high else param < high.

(** Modelled from the spec: [BaseDetector.__init__] (pyod/models/base.py)
    is the contamination check, a real in (0, 0.5); it stores the value
    or raises [ValueError]. *)
Definition BaseDetector__init__ (contamination : pyval) : option R :=
  match contamination with
  | PyFloat c => if bool_decide (0 < c < 1/2) then Some c else None
  | _ => None
  end.

(** The attributes of a detector instance. *)
Record SOD := {
  contamination : R;
  n_neighbors_ : Z;
  ref_set_ : Z;
  alpha_ : R;
  decision_scores_ : option (list R);
  threshold_ : option R;
  labels_ : option (list Z)
}.

Definition set_decision_scores (scores : list R) (d : SOD) : SOD :=
  {| contamination := contamination d; n_neighbors_ := n_neighbors_ d;
     ref_set_ := ref_set_ d; alpha_ := alpha_ d;
     decision_scores_ := Some scores;
     threshold_ := threshold_ d; labels_ := labels_ d |}.

(** Lines 90-113.  [None] is the raised [ValueError]: no instance. *)
Definition __init__ `{RangeDefaults}
    (contamination n_neighbors ref_set alpha : pyval) : option SOD :=
  c ← BaseDetector__init__ contamination;
  nn ← int_value n_neighbors;
  _ ← guard (check_parameter (IZR nn) 1 None = true);
  rs ← int_value ref_set;
  _ ← guard (check_parameter (IZR rs) 1 (Some (IZR nn)) = true);
  a ← float_value alpha;
  _ ← guard (check_parameter a 0 (Some 1) = true);
  Some {| contamination := c; n_neighbors_ := nn; ref_set_ := rs;
          alpha_ := a; decision_scores_ := None;
          threshold_ := None; labels_ := None |}.

(** *** Methods

    Detector instances live in a store; a method takes the address [self]
    and runs in a state monad over the store, with [None] for a raised
    exception (the store at the raise is kept). *)
Definition store := gmap positive SOD.
Definition method (A : Type) : Type := store → option A * store.

Definition ret {A} (a : A) : method A := λ h, (Some a, h).
Definition raise {A} : method A := λ h, (None, h).
Definition bind {A B} (m : method A) (k : A → method B) : method B :=
  λ h, match m h with
       | (Some a, h') => k a h'
       | (None, h') => (None, h')
       end.
Definition lift {A} (o : option A) : method A := λ h, (o, h).
Definition getattr {A} (self : positive) (field : SOD → A) : method A :=
  λ h, (field <$> h !! self, h).
Definition setattr (self : positive) (update : SOD → SOD) : method unit :=
  λ h, match h !! self with
       | Some d => (Some tt, <[self := update d]> h)
       | None => (None, h)
       end.

Declare Scope method_scope.
Delimit Scope method_scope with method.
Notation "x <- m ;; k" := (bind m (λ x, k))
  (at level 100, m at next level, right associativity) : method_scope.
Notation "m ;; k" := (bind m (λ _, k))
  (at level 100, right associativity) : method_scope.
Local Open Scope method_scope.

(** The collaborators outside this file: sklearn's nearest-neighbour
    search and [check_array], and the methods inherited from
    [BaseDetector]. *)
Class Collaborators := {
  (** [NearestNeighbors(n_neighbors).fit(X).kneighbors(return_distance=False)] *)
  kneighbors : Z → list (list R) → option (list (list Z));
  (** its result is an n x n_neighbors index matrix *)
  kneighbors_shape : ∀ k X ind, kneighbors k X = Some ind →
    length ind = length X ∧ Forall (λ row, length row = Z.to_nat k) ind;
  check_array : list (list R) → option (list (list R));
  _set_n_classes : positive → method unit;
  _process_decision_scores : positive → method unit
}.

Section Methods.
Context `{SNN.ArgSort} `{SNN.Scheduler} `{Collaborators}.

(** [_snn_imp(ind, ref_set)] for a Python int [ref_set]: a negative one
    makes [np.zeros(shape=(n, ref_set_))] on line 31 raise [ValueError]. *)
Definition call_snn_imp (ind : list (list Z)) (ref_set : Z)
    : option (list (list Z)) :=
  if decide (0 ≤ ref_set)%Z then SNN._snn_imp ind (Z.to_nat ref_set) else None.

(** Lines 159-173 *)
Definition _snn (self : positive) (X : list (list R)) : method (list (list Z)) :=
  n_neighbors <- getattr self n_neighbors_;;
  ind <- lift (kneighbors n_neighbors X);;
  ref_set <- getattr self ref_set_;;
  lift (call_snn_imp ind ref_set).

(** Lines 175-200 *)
Definition _sod (self : positive) (X : list (list R)) : method (list R) :=
  ref_inds <- _snn self X;;
  ref_set <- getattr self ref_set_;;
  alpha <- getattr self alpha_;;
  lift (Scorer.sod_loop alpha ref_set X ref_inds).

(** Lines 140-157 *)
Definition decision_function (self : positive) (X : list (list R))
    : method (list R) :=
  _sod self X.

(** What [_sod] computes from the attributes [det] of [self]. *)
Definition sod_of (det : SOD) (X : list (list R)) : option (list R) :=
  ind ← kneighbors (n_neighbors_ det) X;
  ref_inds ← call_snn_imp ind (ref_set_ det);
  Scorer.sod_loop (alpha_ det) (ref_set_ det) X ref_inds.

(** Lines 115-138 *)
Definition fit (self : positive) (X : list (list R)) : method positive :=
  X <- lift (check_array X);;
  _set_n_classes self;;
  scores <- decision_function self X;;
  setattr self (set_decision_scores scores);;
  _process_decision_scores self;;
  ret self.

End Methods.

(** A stand-in for the collaborators, to run the methods on concrete
    inputs: the neighbours of point [i] are the next [k] points in cyclic
    order, [check_array] accepts its argument as it is, and the inherited
    methods leave the store alone. *)
Definition ring_kneighbors (k : Z) (X : list (list R))
    : option (list (list Z)) :=
  let n := length X in
  if decide (Z.to_nat k < n)%nat
  then Some ((λ i, (λ t, Z.of_nat ((i + 1 + t) mod n)) <$> seq 0 (Z.to_nat k))
               <$> seq 0 n)
  else None.

(** The detector of the examples: [n_neighbors = 2], [ref_set = 1],
    [alpha = 0.8], not fitted, at address 1. *)
Definition example_detector : SOD :=
  {| contamination := 1/10; n_neighbors_ := 2; ref_set_ := 1;
     alpha_ := 4/5; decision_scores_ := None;
     threshold_ := None; labels_ := None |}.

Definition example_store : store := {[ 1%positive := example_detector ]}.

(** A configuration the constructor accepts under either default of
    [check_parameter]: [n_neighbors = 3], [ref_set = 2], [alpha = 0.8]. *)
Definition accepted_detector : SOD :=
  {| contamination := 1/10; n_neighbors_ := 3; ref_set_ := 2;
     alpha_ := 4/5; decision_scores_ := None;
     threshold_ := None; labels_ := None |}.

Definition accepted_store : store := {[ 1%positive := accepted_detector ]}.

End Detector.

(** ** The configurations the specification admits *)
Module ConfigSpec.

Import Detector.
Local Open Scope R_scope.

(** the numeric value of a Python number *)
Definition number (v : pyval) : option R :=
  match v with
  | PyInt z => Some (IZR z)
  | PyBool b => Some (IZR (Z.b2z b))
  | PyFloat x => Some x
  | PyNone => None
  end.

(** Sections 3, 6, 7 and 8: [n_neighbors] and [ref_set] are positive
    integers, [ref_set] lies in [1, n_neighbors] and is smaller than
    [n_neighbors], [alpha] lies in (0, 1) and [contamination] in (0, 0.5). *)
Definition admits (contamination n_neighbors ref_set alpha : pyval) : Prop :=
  ∃ (nn rs : Z) (a c : R),
    int_value n_neighbors = Some nn ∧ int_value ref_set = Some rs ∧
    number alpha = Some a ∧ number contamination = Some c ∧
    (0 < nn)%Z ∧ (0 < rs)%Z ∧ (1 ≤ rs ≤ nn)%Z ∧ (rs < nn)%Z ∧
    0 < a < 1 ∧ 0 < c < 1/2.

End ConfigSpec.

(** * Properties *)

(** ** Insertion sort is an [ArgSort] *)
Section InsertionSort.
Import SNN.
Local Open Scope Z_scope.

Lemma insert_idx_perm l i s : insert_idx l i s ≡ₚ i :: s.
Proof.
  induction s as [|j s IH]; simpl; [done|].
  destruct (l !!! i <? l !!! j); [done|].
  rewrite IH. apply Permutation_swap.
Qed.

Lemma foldl_insert_idx_perm l xs acc :
  foldl (λ acc i, insert_idx l i acc) acc xs ≡ₚ acc ++ xs.
Proof.
  revert acc. induction xs as [|x xs IH]; intros acc; simpl.
  - by rewrite app_nil_r.
  - rewrite IH, insert_idx_perm.
    by rewrite (Permutation_middle acc xs x).
Qed.

Lemma argsort_insertion_perm l : argsort_insertion l ≡ₚ seq 0 (length l).
Proof. unfold argsort_insertion. by rewrite foldl_insert_idx_perm. Qed.

Lemma insert_idx_sorted l i s :
  StronglySorted (by_value l) s → StronglySorted (by_value l) (insert_idx l i s).
Proof.
  induction 1 as [|j s Hs IH Hj]; simpl.
  - repeat constructor.
  - destruct (Z.ltb_spec (l !!! i) (l !!! j)) as [Hlt|Hge].
    + constructor; [by constructor|].
      constructor; [unfold by_value; lia|].
      eapply Forall_impl; [exact Hj|]. unfold by_value. intros; lia.
    + constructor; [exact IH|].
      rewrite insert_idx_perm. by constructor.
Qed.

Lemma foldl_insert_idx_sorted l xs acc :
  StronglySorted (by_value l) acc →
  StronglySorted (by_value l) (foldl (λ acc i, insert_idx l i acc) acc xs).
Proof.
  revert acc. induction xs as [|x xs IH]; intros acc Hacc; simpl; [done|].
  by apply IH, insert_idx_sorted.
Qed.

Lemma StronglySorted_lookup_le {A} (R : A → A → Prop) (s : list A) :
  (∀ x, R x x) → StronglySorted R s →
  ∀ a b x y, (a ≤ b)%nat → s !! a = Some x → s !! b = Some y → R x y.
Proof.
  intros Hrefl. induction 1 as [|z s Hs IH Hz]; intros a b x y Hab Ha Hb.
  - by rewrite lookup_nil in Ha.
  - destruct a as [|a], b as [|b]; simpl in *; simplify_eq.
    + apply Hrefl.
    + rewrite Forall_forall in Hz. apply Hz.
      by eapply list_elem_of_lookup_2.
    + lia.
    + eapply IH; [|done..]. lia.
Qed.

Lemma argsort_insertion_sorted l (a b x y : nat) :
  (a ≤ b)%nat → argsort_insertion l !! a = Some x →
  argsort_insertion l !! b = Some y → l !!! x ≤ l !!! y.
Proof.
  apply (StronglySorted_lookup_le (by_value l)).
  - intros z. unfold by_value. lia.
  - apply foldl_insert_idx_sorted. constructor.
Qed.

Lemma seq_covers n i : i ∈ seq 0 n ↔ (i < n)%nat.
Proof. rewrite elem_of_seq. lia. Qed.

(** the iterations in their sequential order *)
#[export] Instance sequential : Scheduler :=
  {| prange := seq 0; prange_covers := seq_covers |}.

#[export] Instance insertion_ArgSort : ArgSort :=
  {| argsort := argsort_insertion;
     argsort_perm := argsort_insertion_perm;
     argsort_sorted := argsort_insertion_sorted |}.

End InsertionSort.

(** ** A loop that fills one cell per iteration *)
Section FillLoop.
Context {A : Type}.
Variable cell : nat → option A.

Lemma fill_raised schedule : foldl (fill_step cell) None schedule = None.
Proof. by induction schedule. Qed.

Lemma fill_length schedule c c' :
  foldl (fill_step cell) (Some c) schedule = Some c' → length c' = length c.
Proof.
  revert c. induction schedule as [|i s IH]; intros c Hc; simpl in *.
  - by simplify_eq.
  - destruct (cell i) as [x|]; [|by rewrite fill_raised in Hc].
    apply IH in Hc. by rewrite length_insert in Hc.
Qed.

Lemma fill_None schedule c i :
  i ∈ schedule → cell i = None → foldl (fill_step cell) (Some c) schedule = None.
Proof.
  revert c. induction schedule as [|j s IH]; intros c Hi Hcell.
  - by apply not_elem_of_nil in Hi.
  - simpl. apply elem_of_cons in Hi as [->|Hi].
    + rewrite Hcell. apply fill_raised.
    + destruct (cell j); [by apply IH|apply fill_raised].
Qed.

Lemma fill_is_Some schedule c :
  (∀ i, i ∈ schedule → is_Some (cell i)) →
  is_Some (foldl (fill_step cell) (Some c) schedule).
Proof.
  revert c. induction schedule as [|j s IH]; intros c Hall; simpl; [by eexists|].
  destruct (Hall j) as [x ->]; [by left|].
  apply IH. intros i Hi. apply Hall. by right.
Qed.

Lemma fill_lookup schedule c c' j :
  foldl (fill_step cell) (Some c) schedule = Some c' →
  c' !! j = if decide (j ∈ schedule ∧ j < length c) then cell j else c !! j.
Proof.
  revert c. induction schedule as [|i s IH]; intros c Hc; simpl in Hc.
  - simplify_eq. destruct (decide _) as [[Hd _]|_]; [|done].
    by apply not_elem_of_nil in Hd.
  - destruct (cell i) as [x|] eqn:Hx; [|by rewrite fill_raised in Hc].
    rewrite (IH _ Hc), length_insert.
    destruct (decide (j ∈ s)) as [Hjs|Hjs], (decide (j < length c)) as [Hlt|Hlt].
    + rewrite !decide_True; [done|split; [by right|done]|done].
    + rewrite !decide_False by tauto.
      transitivity (@None A); [|symmetry]; apply lookup_ge_None;
        rewrite ?length_insert; lia.
    + rewrite decide_False by tauto.
      destruct (decide (j = i)) as [->|Hne].
      * rewrite decide_True by (split; [by left|done]).
        rewrite list_lookup_insert_eq by done. done.
      * rewrite decide_False by (rewrite elem_of_cons; tauto).
        by rewrite list_lookup_insert_ne.
    + rewrite !decide_False by tauto.
      transitivity (@None A); [|symmetry]; apply lookup_ge_None;
        rewrite ?length_insert; lia.
Qed.

(** Whatever the order of the iterations, the loop computes the same
    thing as filling the cells from left to right. *)
Lemma fill_any_order schedule n (x0 : A) :
  (∀ i, i ∈ schedule ↔ i < n) →
  foldl (fill_step cell) (Some (replicate n x0)) schedule = mapM cell (seq 0 n).
Proof.
  intros Hsched.
  destruct (mapM cell (seq 0 n)) as [k|] eqn:Hk.
  - pose proof (mapM_Some_1 _ _ _ Hk) as Hall.
    destruct (fill_is_Some schedule (replicate n x0)) as [c' Hc'].
    { intros i Hi. apply Hsched in Hi.
      destruct (Forall2_lookup_l _ _ _ i i Hall) as (y & _ & Hy).
      - apply lookup_seq. lia.
      - by eexists. }
    rewrite Hc'. f_equal. apply list_eq. intros j.
    rewrite (fill_lookup _ _ _ j Hc'), length_replicate.
    destruct (decide (j < n)) as [Hj|Hj].
    + rewrite decide_True by (split; [by apply Hsched|done]).
      destruct (Forall2_lookup_l _ _ _ j j Hall) as (y & Hy1 & Hy2).
      { apply lookup_seq. lia. }
      by rewrite Hy1, Hy2.
    + rewrite decide_False by tauto.
      apply length_mapM in Hk. rewrite length_seq in Hk.
      transitivity (@None A); [|symmetry]; apply lookup_ge_None;
        rewrite ?length_replicate; lia.
  - destruct (decide (Forall (λ i, is_Some (cell i)) (seq 0 n))) as [Hall|Hex].
    + apply (mapM_is_Some_2 cell) in Hall. rewrite Hk in Hall.
      by destruct Hall.
    + apply not_Forall_Exists in Hex; [|apply _].
      apply Exists_exists in Hex as (i & Hi & Hnone).
      apply (fill_None _ _ i).
      * apply Hsched. apply elem_of_seq in Hi. lia.
      * by apply eq_None_not_Some.
Qed.

End FillLoop.

(** ** The reference-set builder *)
Section SharedCount.
Import SNN.
Local Open Scope Z_scope.

Lemma size_list_to_set_le (l : list Z) :
  (size (list_to_set l : gset Z) ≤ length l)%nat.
Proof.
  induction l as [|x l IH]; simpl; [done|].
  rewrite size_union_alt, size_singleton.
  assert (list_to_set l ∖ {[x]} ⊆ (list_to_set l : gset Z)) as Hsub
    by (intros y [Hy _]%elem_of_difference; exact Hy).
  apply subseteq_size in Hsub. lia.
Qed.

Lemma shared_bounds (a b : list Z) : 0 ≤ shared a b ≤ Z.of_nat (length a).
Proof.
  unfold shared.
  assert ((list_to_set a : gset Z) ∩ list_to_set b ⊆ list_to_set a) as Hsub
    by (intros y [Hy _]%elem_of_intersection; exact Hy).
  apply subseteq_size in Hsub.
  pose proof (size_list_to_set_le a). lia.
Qed.

End SharedCount.

Section BuilderFacts.
Import SNN.
Context `{!ArgSort}.
Local Open Scope Z_scope.

Implicit Types (ind : list (list Z)) (i j r n k : nat).

Lemma snn_imp_mapM `{!Scheduler} ind r :
  _snn_imp ind r = mapM (row_of ind r) (seq 0 (length ind)).
Proof. apply (fill_any_order (row_of ind r)), prange_covers. Qed.

Lemma length_temp ind i : length (temp ind i) = length ind.
Proof. unfold temp. by rewrite length_insert, length_fmap. Qed.

Lemma length_ranking ind i : length (ranking ind i) = length ind.
Proof.
  unfold ranking.
  by rewrite length_reverse, (Permutation_length (argsort_perm _)),
    length_seq, length_temp.
Qed.

Lemma ranking_perm ind i : ranking ind i ≡ₚ seq 0 (length ind).
Proof.
  unfold ranking. by rewrite reverse_Permutation, argsort_perm, length_temp.
Qed.

Lemma length_selected ind r i :
  length (selected ind r i) = (r `min` (length ind - 1))%nat.
Proof.
  unfold selected, slice1.
  by rewrite length_fmap, length_take, length_drop, length_ranking.
Qed.

(** [temp] holds the similarities, and the sentinel at [i]. *)
Lemma temp_self ind i : (i < length ind)%nat → temp ind i !!! i = UINT32_MAX.
Proof.
  intros Hi. unfold temp.
  rewrite list_lookup_total_insert_eq; [done|by rewrite length_fmap].
Qed.

Lemma temp_other ind k i j :
  Forall (λ row, length row = k) ind → Z.of_nat k < UINT32_MAX →
  (j < length ind)%nat → j ≠ i →
  temp ind i !!! j = similarity ind i j ∧ temp ind i !!! j < UINT32_MAX.
Proof.
  intros Hrows Hk Hj Hne. unfold temp.
  rewrite list_lookup_total_insert_ne by done.
  rewrite (list_lookup_total_fmap
             (λ row_j, to_uint32 (shared row_j (ind !!! i))) ind j) by done.
  fold (similarity ind i j).
  assert (length (ind !!! j) = k) as Hlen.
  { rewrite Forall_forall in Hrows. apply Hrows.
    apply list_elem_of_lookup. exists j.
    by apply list_lookup_lookup_total_lt. }
  pose proof (shared_bounds (ind !!! j) (ind !!! i)) as Hb.
  rewrite Hlen in Hb. fold (similarity ind i j) in Hb.
  unfold to_uint32, UINT32_MAX in *.
  rewrite Z.mod_small by lia. lia.
Qed.

(** The ranking is ordered from the largest to the smallest entry. *)
Lemma ranking_descending ind i a b x y :
  (a ≤ b)%nat → ranking ind i !! a = Some x → ranking ind i !! b = Some y →
  temp ind i !!! y ≤ temp ind i !!! x.
Proof.
  intros Hab Ha Hb. unfold ranking in *.
  pose proof (lookup_lt_Some _ _ _ Ha) as Hla.
  pose proof (lookup_lt_Some _ _ _ Hb) as Hlb.
  rewrite length_reverse in Hla, Hlb.
  rewrite reverse_lookup in Ha, Hb by done.
  eapply argsort_sorted; [|exact Hb|exact Ha]. lia.
Qed.

(** The sentinel puts [i] first. *)
Lemma ranking_head ind k i :
  Forall (λ row, length row = k) ind → Z.of_nat k < UINT32_MAX →
  (i < length ind)%nat → ranking ind i !! 0%nat = Some i.
Proof.
  intros Hrows Hk Hi.
  destruct (ranking ind i !! 0%nat) as [y|] eqn:Hy.
  2:{ apply lookup_ge_None in Hy. rewrite length_ranking in Hy. lia. }
  f_equal. destruct (decide (y = i)) as [|Hne]; [done|exfalso].
  assert (i ∈ ranking ind i) as Hin.
  { rewrite ranking_perm, elem_of_seq. lia. }
  apply list_elem_of_lookup in Hin as [a Ha].
  assert (y ∈ ranking ind i) as Hyin by (by eapply list_elem_of_lookup_2).
  rewrite ranking_perm, elem_of_seq in Hyin.
  pose proof (ranking_descending ind i 0 a y i ltac:(lia) Hy Ha) as Hle.
  rewrite temp_self in Hle by done.
  destruct (temp_other ind k i y Hrows Hk ltac:(lia) Hne) as [_ Hlt]. lia.
Qed.

End BuilderFacts.

Section BuilderRows.
Import SNN.
Context `{!ArgSort} `{!Scheduler}.
Local Open Scope Z_scope.

Implicit Types (ind : list (list Z)) (i j r n k : nat).

Lemma mapM_total {A B} (f : A → option B) (g : A → B) (l : list A) :
  (∀ x, x ∈ l → f x = Some (g x)) → mapM f l = Some (g <$> l).
Proof.
  intros Hf. apply mapM_Some_2, Forall2_fmap_r, Forall_Forall2_diag.
  apply Forall_forall. intros x Hx. by apply Hf.
Qed.

(** With more than [r] points the slice has [r] entries and is copied. *)
Lemma row_of_copied ind r i :
  (r < length ind)%nat → row_of ind r i = Some (selected ind r i).
Proof.
  intros Hr. unfold row_of, assign_row.
  rewrite decide_True; [done|]. rewrite length_selected. lia.
Qed.

Lemma snn_imp_rows ind r :
  (r < length ind)%nat →
  _snn_imp ind r = Some (selected ind r <$> seq 0 (length ind)).
Proof.
  intros Hr. rewrite snn_imp_mapM. apply mapM_total.
  intros i _. by apply row_of_copied.
Qed.

Lemma snn_imp_row ind r i :
  (r < length ind)%nat → (i < length ind)%nat →
  ∃ _count, _snn_imp ind r = Some _count ∧ length _count = length ind ∧
            _count !! i = Some (selected ind r i).
Proof.
  intros Hr Hi. eexists. split; [by apply snn_imp_rows|].
  split; [by rewrite length_fmap, length_seq|].
  rewrite list_lookup_fmap, lookup_seq_lt by done. done.
Qed.

Lemma picked_lookup ind r i a j :
  picked ind r i !! a = Some j ↔ (a < r)%nat ∧ ranking ind i !! S a = Some j.
Proof.
  unfold picked, slice1. rewrite lookup_take, lookup_drop.
  case_decide; simpl; [tauto|]. split; [done|]. tauto.
Qed.

Lemma picked_in_range ind r i j :
  j ∈ picked ind r i → (j < length ind)%nat.
Proof.
  intros [a [_ Ha]%picked_lookup]%list_elem_of_lookup.
  apply list_elem_of_lookup_2 in Ha.
  rewrite ranking_perm, elem_of_seq in Ha. lia.
Qed.

Lemma picked_NoDup ind r i : NoDup (picked ind r i).
Proof.
  unfold picked, slice1. apply (sublist_NoDup _ (ranking ind i)).
  - rewrite ranking_perm. apply NoDup_seq.
  - etrans; [apply sublist_take|apply sublist_drop].
Qed.

Lemma length_picked ind r i :
  length (picked ind r i) = (r `min` (length ind - 1))%nat.
Proof.
  unfold picked, slice1. by rewrite length_take, length_drop, length_ranking.
Qed.

(** No index wraps in the [uint32] store while there are at most [2^32]
    points. *)
Lemma selected_picked ind r i :
  Z.of_nat (length ind) ≤ 4294967296 →
  selected ind r i = Z.of_nat <$> picked ind r i.
Proof.
  intros Hn. unfold selected. fold (picked ind r i).
  apply list_fmap_ext. intros a j Hj.
  apply list_elem_of_lookup_2, picked_in_range in Hj.
  unfold to_uint32. apply Z.mod_small. lia.
Qed.

Section Row.
Variables (ind : list (list Z)) (k r i : nat).
Hypothesis rows_k : Forall (λ row, length row = k) ind.
Hypothesis k_small : Z.of_nat k < UINT32_MAX.
Hypothesis i_lt : (i < length ind)%nat.

Lemma picked_not_self j : j ∈ picked ind r i → j ≠ i.
Proof.
  intros [a [_ Ha]%picked_lookup]%list_elem_of_lookup ->.
  pose proof (ranking_head ind k i rows_k k_small i_lt) as Hhead.
  assert (NoDup (ranking ind i)) as Hnd.
  { rewrite ranking_perm. apply NoDup_seq. }
  by pose proof (NoDup_lookup _ _ _ _ Hnd Ha Hhead).
Qed.

Lemma temp_similarity j :
  j ∈ picked ind r i → temp ind i !!! j = similarity ind i j.
Proof.
  intros Hj.
  apply (temp_other ind k i j rows_k k_small).
  - by eapply picked_in_range.
  - by apply picked_not_self.
Qed.

Lemma picked_descending a b ja jb :
  (a ≤ b)%nat → picked ind r i !! a = Some ja → picked ind r i !! b = Some jb →
  similarity ind i jb ≤ similarity ind i ja.
Proof.
  intros Hab Ha Hb.
  rewrite <- !temp_similarity by (by eapply list_elem_of_lookup_2).
  apply picked_lookup in Ha as [_ Ha], Hb as [_ Hb].
  eapply ranking_descending; [|exact Ha|exact Hb]. lia.
Qed.

Lemma picked_top j j' :
  (j < length ind)%nat → j ≠ i → j ∉ picked ind r i → j' ∈ picked ind r i →
  similarity ind i j ≤ similarity ind i j'.
Proof.
  intros Hj Hne Hout Hin.
  rewrite <- (temp_similarity j') by done.
  destruct (temp_other ind k i j rows_k k_small Hj Hne) as [<- _].
  apply list_elem_of_lookup in Hin as [a Ha].
  pose proof Ha as [Har Ha']%picked_lookup.
  assert (j ∈ ranking ind i) as [b Hb]%list_elem_of_lookup.
  { rewrite ranking_perm, elem_of_seq. lia. }
  eapply ranking_descending; [|exact Ha'|exact Hb].
  destruct b as [|b].
  { pose proof (ranking_head ind k i rows_k k_small i_lt). congruence. }
  destruct (decide (b < r)%nat) as [Hbr|Hbr]; [|lia].
  exfalso. apply Hout. apply list_elem_of_lookup. exists b.
  by apply picked_lookup.
Qed.

End Row.
End BuilderRows.

Section BuilderClaims.
Import SNN.
Local Open Scope Z_scope.

(** C4.  For an n x k neighbour index matrix and a reference-set size r
    with r < k and n > r (and sizes that the uint32 cells hold exactly),
    row i of the matrix returned by [_snn_imp] is a list of r distinct
    indices, none of them i, ordered from the most to the least similar to
    i, and no index left out other than i is more similar to i than one
    that was selected; similarity is the number of neighbours rows i and j
    share. *)
Theorem snn_row_most_similar `{!ArgSort} `{!Scheduler}
    (ind : list (list Z)) (n k r i : nat) :
  length ind = n → Forall (λ row, length row = k) ind →
  Z.of_nat n ≤ 4294967296 → Z.of_nat k < UINT32_MAX →
  (r < k)%nat → (r < n)%nat → (i < n)%nat →
  ∃ _count js,
    _snn_imp ind r = Some _count ∧
    _count !! i = Some (Z.of_nat <$> js) ∧
    length js = r ∧ NoDup js ∧
    (∀ j, j ∈ js → j ≠ i ∧ (j < n)%nat) ∧
    (∀ a b ja jb, (a ≤ b)%nat → js !! a = Some ja → js !! b = Some jb →
                  similarity ind i jb ≤ similarity ind i ja) ∧
    (∀ j j', (j < n)%nat → j ≠ i → j ∉ js → j' ∈ js →
             similarity ind i j ≤ similarity ind i j').
Proof.
  intros <- Hrows Hn Hk _ Hr Hi.
  destruct (snn_imp_row ind r i Hr Hi) as (c & Hc & _ & Hci).
  exists c, (picked ind r i). split; [done|].
  split; [by rewrite Hci, selected_picked|].
  split; [rewrite length_picked; lia|].
  split; [apply picked_NoDup|].
  split; [|split].
  - intros j Hj. split; [by eapply picked_not_self|by eapply picked_in_range].
  - intros a b ja jb. by eapply picked_descending.
  - intros j j'. by eapply picked_top.
Qed.

Lemma snn_row_most_similar_witness :
  ∃ _count js,
    _snn_imp [[1;2;3];[0;2;3];[0;1;3];[0;1;2];[0;1;2]] 2 = Some _count ∧
    _count !! 0%nat = Some (Z.of_nat <$> js) ∧
    length js = 2%nat ∧ NoDup js ∧
    (∀ j, j ∈ js → j ≠ 0%nat ∧ (j < 5)%nat) ∧
    (∀ a b ja jb, (a ≤ b)%nat → js !! a = Some ja → js !! b = Some jb →
       similarity [[1;2;3];[0;2;3];[0;1;3];[0;1;2];[0;1;2]] 0 jb
       ≤ similarity [[1;2;3];[0;2;3];[0;1;3];[0;1;2];[0;1;2]] 0 ja) ∧
    (∀ j j', (j < 5)%nat → j ≠ 0%nat → j ∉ js → j' ∈ js →
       similarity [[1;2;3];[0;2;3];[0;1;3];[0;1;2];[0;1;2]] 0 j
       ≤ similarity [[1;2;3];[0;2;3];[0;1;3];[0;1;2];[0;1;2]] 0 j').
Proof.
  apply (snn_row_most_similar _ 5 3 2 0).
  - reflexivity.
  - repeat constructor.
  - vm_compute. discriminate.
  - reflexivity.
  - lia.
  - lia.
  - lia.
Defined.

(** C5.  On a valid input (an n x k matrix with r < k and r < n, sizes
    that the uint32 cells hold exactly) [_snn_imp] returns a matrix of n
    rows, and every row i holds r distinct indices, none equal to i. *)
Theorem snn_rows_distinct_without_self `{!ArgSort} `{!Scheduler}
    (ind : list (list Z)) (k r : nat) :
  Forall (λ row, length row = k) ind →
  Z.of_nat (length ind) ≤ 4294967296 → Z.of_nat k < UINT32_MAX →
  (r < k)%nat → (r < length ind)%nat →
  ∃ _count,
    _snn_imp ind r = Some _count ∧ length _count = length ind ∧
    ∀ i row, _count !! i = Some row →
             length row = r ∧ NoDup row ∧ Z.of_nat i ∉ row.
Proof.
  intros Hrows Hn Hk _ Hr.
  exists (selected ind r <$> seq 0 (length ind)).
  split; [by apply snn_imp_rows|].
  split; [by rewrite length_fmap, length_seq|].
  intros i row Hrow.
  assert (i < length ind)%nat as Hi.
  { apply lookup_lt_Some in Hrow. by rewrite length_fmap, length_seq in Hrow. }
  rewrite list_lookup_fmap, lookup_seq_lt in Hrow by done.
  simpl in Hrow. injection Hrow as <-.
  rewrite selected_picked by done.
  split; [rewrite length_fmap, length_picked; lia|].
  split.
  - apply (NoDup_fmap_2 _), picked_NoDup.
  - intros (j & Hj & Hin)%list_elem_of_fmap.
    apply Nat2Z.inj in Hj. subst j.
    by eapply picked_not_self.
Qed.

Lemma snn_rows_distinct_without_self_witness :
  ∃ _count,
    _snn_imp [[1;2;3];[0;2;3];[0;1;3];[0;1;2];[0;1;2]] 2 = Some _count ∧
    length _count = 5%nat ∧
    ∀ i row, _count !! i = Some row →
             length row = 2%nat ∧ NoDup row ∧ Z.of_nat i ∉ row.
Proof.
  apply (snn_rows_distinct_without_self
           [[1;2;3];[0;2;3];[0;1;3];[0;1;2];[0;1;2]] 3 2).
  - repeat constructor.
  - vm_compute. discriminate.
  - reflexivity.
  - lia.
  - simpl. lia.
Defined.

End BuilderClaims.

Section BuilderSize.
Import SNN.
Local Open Scope Z_scope.

Lemma mapM_raises {A B} (f : A → option B) (l : list A) x :
  x ∈ l → f x = None → mapM f l = None.
Proof.
  intros Hx Hf. apply eq_None_not_Some. intros Hsome.
  apply mapM_is_Some in Hsome. rewrite Forall_forall in Hsome.
  specialize (Hsome x Hx). simpl in Hsome. rewrite Hf in Hsome.
  by destruct Hsome.
Qed.

Lemma assign_row_short r (src : list Z) :
  length src ≠ r → length src ≠ 1%nat → assign_row r src = None.
Proof.
  intros Hr H1. unfold assign_row. rewrite decide_False by done.
  by destruct src as [|x [|y src]].
Qed.

Lemma assign_row_broadcast r (src : list Z) :
  length src ≠ r → length src = 1%nat →
  ∃ x, assign_row r src = Some (replicate r x).
Proof.
  intros Hr H1. unfold assign_row. rewrite decide_False by done.
  destruct src as [|x [|y src]]; simplify_eq/=. by exists x.
Qed.

(** C10 as stated fails: with two points and [ref_set_ = 2] the slice of
    the ranking has one entry, and the assignment broadcasts it over the
    row instead of raising. *)
Lemma snn_two_points_broadcast :
  (length [[1];[0]] ≤ 2)%nat ∧ _snn_imp [[1];[0]] 2 = Some [[1;1];[0;0]].
Proof. split; [simpl; lia|reflexivity]. Qed.

(** C10, amended.  With n >= ref_set + 1 points every row of the result
    has exactly ref_set entries.  With n <= ref_set the slice has n - 1
    entries: the row assignment raises when n = 1 or n >= 3, it broadcasts
    the one entry over the row when n = 2, and with n = 0 no row is
    assigned and the empty matrix is returned. *)
Theorem snn_needs_more_points_than_ref_set `{!ArgSort} `{!Scheduler}
    (ind : list (list Z)) (r : nat) :
  ((r < length ind)%nat →
     ∃ _count, _snn_imp ind r = Some _count ∧ length _count = length ind ∧
               Forall (λ row, length row = r) _count) ∧
  ((length ind ≤ r)%nat → length ind ≠ 0%nat → length ind ≠ 2%nat →
     _snn_imp ind r = None) ∧
  ((length ind ≤ r)%nat → length ind = 2%nat →
     ∃ x y, _snn_imp ind r = Some [replicate r x; replicate r y]) ∧
  (length ind = 0%nat → _snn_imp ind r = Some []).
Proof.
  repeat split.
  - intros Hr. exists (selected ind r <$> seq 0 (length ind)).
    split; [by apply snn_imp_rows|].
    split; [by rewrite length_fmap, length_seq|].
    apply Forall_fmap, Forall_forall. intros i _. simpl.
    rewrite length_selected. lia.
  - intros Hle Hn0 Hn2. rewrite snn_imp_mapM.
    apply (mapM_raises _ _ 0%nat).
    + apply elem_of_seq. lia.
    + apply assign_row_short; rewrite length_selected; lia.
  - intros Hle Hn2. rewrite snn_imp_mapM, Hn2. simpl.
    destruct (assign_row_broadcast r (selected ind r 0)) as [x Hx];
      [rewrite length_selected; lia..|].
    destruct (assign_row_broadcast r (selected ind r 1)) as [y Hy];
      [rewrite length_selected; lia..|].
    exists x, y. unfold row_of. by rewrite Hx, Hy.
  - intros Hn0. rewrite snn_imp_mapM, Hn0. done.
Qed.

Lemma snn_needs_more_points_than_ref_set_witness :
  ∃ _count, _snn_imp [[1;2];[0;2];[0;1]] 1 = Some _count ∧
            length _count = 3%nat ∧
            Forall (λ row, length row = 1%nat) _count.
Proof.
  apply (snn_needs_more_points_than_ref_set [[1;2];[0;2];[0;1]] 1).
  simpl. lia.
Defined.

End BuilderSize.

(** ** The subspace scorer *)
Section ScorerLoop.
Import Scorer.
Local Open Scope R_scope.

Variables (alpha_ : R) (ref_set_ : Z).
Variables (X : list (list R)) (ref_inds : list (list Z)).

(** An iteration that finds [rel_dim = 0] leaves the cell as it is; on a
    cell that still holds its initial zero this is the same as storing
    the score. *)
Lemma iteration_fill c i :
  (i < length c)%nat → c !! i = Some 0 →
  iteration alpha_ ref_set_ X ref_inds (Some c) i
  = fill_step (point alpha_ ref_set_ X ref_inds) (Some c) i.
Proof.
  intros Hi Hc. unfold iteration, fill_step, point, score. simpl.
  destruct (X !! i) as [obs|]; simpl; [|done].
  destruct (ref_inds !! i) as [idx|]; simpl; [|done].
  destruct (take_rows X idx) as [ref|]; simpl; [|done].
  destruct (decide _); [done|].
  by rewrite list_insert_id.
Qed.

Lemma loop_fill len : ∀ m c,
  (∀ j, (m ≤ j < m + len)%nat → (j < length c)%nat ∧ c !! j = Some 0) →
  foldl (iteration alpha_ ref_set_ X ref_inds) (Some c) (seq m len)
  = foldl (fill_step (point alpha_ ref_set_ X ref_inds)) (Some c) (seq m len).
Proof.
  induction len as [|len IH]; intros m c Hzero; [done|].
  cbn [seq foldl].
  destruct (Hzero m ltac:(lia)) as [Hm Hcm].
  rewrite iteration_fill by done.
  destruct (point alpha_ ref_set_ X ref_inds m) as [s|] eqn:Hp; simpl; rewrite Hp.
  - apply IH. intros j Hj. rewrite length_insert.
    rewrite list_lookup_insert_ne by lia. apply Hzero. lia.
  - rewrite fill_raised. clear.
    induction (seq (S m) len) as [|j l IHl]; [done|exact IHl].
Qed.

Lemma sod_loop_mapM :
  sod_loop alpha_ ref_set_ X ref_inds
  = mapM (point alpha_ ref_set_ X ref_inds) (seq 0 (length X)).
Proof.
  unfold sod_loop. rewrite loop_fill.
  - apply fill_any_order, seq_covers.
  - intros j Hj. rewrite length_replicate. split; [lia|].
    apply lookup_replicate_2. lia.
Qed.

Lemma sod_loop_lookup scores i :
  sod_loop alpha_ ref_set_ X ref_inds = Some scores → (i < length X)%nat →
  ∃ obs idx ref,
    X !! i = Some obs ∧ ref_inds !! i = Some idx ∧ take_rows X idx = Some ref ∧
    scores !! i = Some (score alpha_ ref_set_ (shape1 X) ref obs).
Proof.
  rewrite sod_loop_mapM. intros Hs Hi.
  apply mapM_Some_1 in Hs.
  destruct (Forall2_lookup_l _ _ _ i i Hs) as (s & Hsi & Hp).
  { apply lookup_seq. lia. }
  unfold point in Hp.
  destruct (X !! i) as [obs|] eqn:Hobs; [|done].
  destruct (ref_inds !! i) as [idx|] eqn:Hidx; [|done].
  cbn [mbind option_bind] in Hp.
  destruct (take_rows X idx) as [ref|] eqn:Href; [|done].
  exists obs, idx, ref. by simplify_eq/=.
Qed.

End ScorerLoop.

Section ScorerArithmetic.
Import Scorer.
Local Open Scope R_scope.

Lemma np_sum_nonneg (l : list R) : Forall (λ x, 0 <= x) l → 0 <= np_sum l.
Proof. induction 1; simpl; lra. Qed.

Lemma np_sum_zero (l : list R) : Forall (λ x, x = 0) l → np_sum l = 0.
Proof. induction 1; simpl; lra. Qed.

Lemma var_inds_bit alpha_ ref_set_ d ref v :
  v ∈ var_inds alpha_ ref_set_ d ref → v = 0%Z ∨ v = 1%Z.
Proof.
  intros (x & -> & _)%list_elem_of_fmap. destruct (Rlt_dec _ _); auto.
Qed.

Lemma sum_bits_nonneg (l : list Z) :
  (∀ v, v ∈ l → v = 0%Z ∨ v = 1%Z) → (0 ≤ foldr Z.add 0 l)%Z.
Proof.
  induction l as [|v l IH]; intros Hl; simpl; [done|].
  destruct (Hl v ltac:(left)); subst;
    specialize (IH (λ w Hw, Hl w ltac:(by right))); lia.
Qed.

Lemma rel_dim_nonneg alpha_ ref_set_ d ref :
  (0 ≤ rel_dim alpha_ ref_set_ d ref)%Z.
Proof. apply sum_bits_nonneg, var_inds_bit. Qed.

(** [rel_dim = 0] says that no entry of [var_actual] is below
    [var_expect]. *)
Lemma sum_bits_zero (f : R → bool) (l : list R) :
  foldr Z.add 0%Z ((λ x, if f x then 1 else 0)%Z <$> l) = 0%Z
  ↔ ∀ x, x ∈ l → f x = false.
Proof.
  induction l as [|x l IH].
  - split; [|done]. intros _ x Hx. by apply not_elem_of_nil in Hx.
  - rewrite fmap_cons. cbn [foldr].
    assert (0 ≤ foldr Z.add 0 ((λ x, if f x then 1 else 0) <$> l))%Z as Hnn.
    { apply sum_bits_nonneg. intros v (y & -> & _)%list_elem_of_fmap.
      destruct (f y); auto. }
    split.
    + intros Hsum y [->|Hy]%elem_of_cons.
      * destruct (f x); [lia|done].
      * apply IH; [|done]. destruct (f x); lia.
    + intros Hall. rewrite (Hall x) by (by left).
      rewrite (proj2 IH); [done|]. intros y Hy. apply Hall. by right.
Qed.

Lemma rel_dim_zero_iff alpha_ ref_set_ d ref :
  rel_dim alpha_ ref_set_ d ref = 0%Z
  ↔ ∀ v, v ∈ var_actual d ref → var_expect alpha_ ref_set_ d ref <= v.
Proof.
  unfold rel_dim, var_inds.
  rewrite (list_fmap_ext _
    (λ x, if bool_decide (x < var_expect alpha_ ref_set_ d ref)
          then 1%Z else 0%Z) (var_actual d ref)).
  2:{ intros _ x _. unfold bool_decide, decide, Rlt_decision.
      by destruct (Rlt_dec _ _). }
  rewrite (sum_bits_zero (λ x, bool_decide (x < var_expect alpha_ ref_set_ d ref))).
  split; intros Hall v Hv; specialize (Hall v Hv).
  - apply bool_decide_eq_false in Hall. lra.
  - apply bool_decide_eq_false. lra.
Qed.

Lemma square_dev_nonneg a m : Forall (λ x, 0 <= x) (square_dev a m).
Proof.
  apply Forall_forall. intros x Hx.
  apply list_elem_of_lookup in Hx as [i Hi].
  apply lookup_zip_with_Some in Hi as (y & z & -> & _).
  apply Rle_0_sqr.
Qed.



Lemma score_nonneg alpha_ ref_set_ d ref obs :
  0 <= score alpha_ ref_set_ d ref obs.
Proof. unfold score. destruct (decide _); [apply sqrt_pos|lra]. Qed.

Lemma score_zero alpha_ ref_set_ d ref obs :
  rel_dim alpha_ ref_set_ d ref = 0%Z → score alpha_ ref_set_ d ref obs = 0.
Proof. intros Hz. unfold score. by rewrite decide_False by (by intros []). Qed.

End ScorerArithmetic.


(** ** Reference points that coincide with their computed mean *)
Section AtTheMean.
Import Scorer.
Local Open Scope R_scope.

Variables (d : nat) (ref : list (list R)).
Hypothesis at_mean : ∀ row, row ∈ ref → row = means d ref.

Lemma means_lookup j :
  (j < d)%nat →
  means d ref !!! j = np_sum (column ref j) / INR (length ref).
Proof.
  intros Hj. unfold means, np_mean_axis0.
  rewrite (list_lookup_total_fmap
             (λ j, np_sum (column ref j) / INR (length ref)))
    by (rewrite length_seq; lia).
  by rewrite lookup_total_seq_lt.
Qed.

(** every entry of column [j] is the mean of the column *)
Lemma column_at_mean j x :
  (j < d)%nat → x ∈ column ref j →
  x = np_sum (column ref j) / INR (length ref).
Proof.
  intros Hj (row & -> & Hrow)%list_elem_of_fmap.
  rewrite (at_mean row Hrow) at 1. by apply means_lookup.
Qed.

Lemma var_actual_at_mean v : v ∈ var_actual d ref → v = 0.
Proof.
  unfold var_actual, np_var_axis0.
  intros (j & -> & Hj%elem_of_seq)%list_elem_of_fmap.
  rewrite np_sum_zero; [unfold Rdiv; lra|].
  apply Forall_fmap, Forall_forall. intros x Hx. simpl.
  rewrite <- (column_at_mean j x) by (done || lia).
  unfold Rsqr. lra.
Qed.

Lemma square_dev_at_mean row :
  row ∈ ref → Forall (λ x, x = 0) (square_dev row (means d ref)).
Proof.
  intros Hrow. apply Forall_forall. intros x [j Hj]%list_elem_of_lookup.
  apply lookup_zip_with_Some in Hj as (y & z & -> & Hy & Hz).
  rewrite (at_mean row Hrow) in Hy.
  assert (y = z) as -> by congruence.
  unfold Rsqr. lra.
Qed.

Lemma var_total_at_mean ref_set_ : var_total ref_set_ d ref = 0.
Proof.
  unfold var_total. rewrite np_sum_zero; [unfold Rdiv; lra|].
  apply Forall_concat, Forall_fmap, Forall_forall.
  intros row Hrow. by apply square_dev_at_mean.
Qed.

Lemma var_expect_at_mean alpha_ ref_set_ : var_expect alpha_ ref_set_ d ref = 0.
Proof. unfold var_expect. rewrite var_total_at_mean. unfold Rdiv. lra. Qed.

Lemma rel_dim_at_mean alpha_ ref_set_ : rel_dim alpha_ ref_set_ d ref = 0%Z.
Proof.
  apply rel_dim_zero_iff. intros v ->%var_actual_at_mean.
  rewrite var_expect_at_mean. lra.
Qed.

End AtTheMean.

Section ScorerClaims.
Import Scorer.
Local Open Scope R_scope.

Lemma point_eq alpha_ ref_set_ X ref_inds i obs idx ref :
  X !! i = Some obs → ref_inds !! i = Some idx → take_rows X idx = Some ref →
  point alpha_ ref_set_ X ref_inds i
  = Some (score alpha_ ref_set_ (shape1 X) ref obs).
Proof.
  intros Hobs Hidx Href. unfold point. rewrite Hobs, Hidx. simpl.
  by rewrite Href.
Qed.

Lemma sod_loop_cell alpha_ ref_set_ X ref_inds scores i s :
  sod_loop alpha_ ref_set_ X ref_inds = Some scores →
  point alpha_ ref_set_ X ref_inds i = Some s → scores !! i = Some s.
Proof.
  intros Hs Hp.
  assert (i < length X)%nat as Hi.
  { unfold point in Hp. destruct (X !! i) eqn:Hobs; [|done].
    by eapply lookup_lt_Some. }
  destruct (sod_loop_lookup _ _ _ _ _ i Hs Hi)
    as (obs & idx & ref & Hobs & Hidx & Href & Hsi).
  rewrite (point_eq _ _ _ _ _ _ _ _ Hobs Hidx Href) in Hp. congruence.
Qed.

(** C3.  If no dimension qualifies ([var_actual[j] >= var_expect] for
    every j, which is what [rel_dim = 0] says), iteration i does not
    raise and the score of point i is 0. *)
Theorem no_relevant_dimension_score_zero alpha_ ref_set_
    (X : list (list R)) (ref_inds : list (list Z)) i obs idx ref :
  X !! i = Some obs → ref_inds !! i = Some idx → take_rows X idx = Some ref →
  (∀ v, v ∈ var_actual (shape1 X) ref →
        var_expect alpha_ ref_set_ (shape1 X) ref <= v) →
  rel_dim alpha_ ref_set_ (shape1 X) ref = 0%Z ∧
  point alpha_ ref_set_ X ref_inds i = Some 0 ∧
  ∀ scores, sod_loop alpha_ ref_set_ X ref_inds = Some scores →
            scores !! i = Some 0.
Proof.
  intros Hobs Hidx Href Hall.
  apply rel_dim_zero_iff in Hall.
  assert (point alpha_ ref_set_ X ref_inds i = Some 0) as Hp.
  { rewrite (point_eq _ _ _ _ _ _ _ _ Hobs Hidx Href). by rewrite score_zero. }
  split; [done|]. split; [done|].
  intros scores Hs. by eapply sod_loop_cell.
Qed.

Lemma no_relevant_dimension_score_zero_witness :
  rel_dim (4/5) 2 2 [[0;0];[2;2]] = 0%Z ∧
  point (4/5) 2 [[5;5];[0;0];[2;2]] [[1;2];[0;2];[0;1]]%Z 0 = Some 0 ∧
  ∀ scores,
    sod_loop (4/5) 2 [[5;5];[0;0];[2;2]] [[1;2];[0;2];[0;1]]%Z = Some scores →
    scores !! 0%nat = Some 0.
Proof.
  apply (no_relevant_dimension_score_zero (4/5) 2
           [[5;5];[0;0];[2;2]] [[1;2];[0;2];[0;1]]%Z 0 [5;5] [1;2]%Z
           [[0;0];[2;2]]).
  - reflexivity.
  - reflexivity.
  - reflexivity.
  - intros v Hv.
    unfold var_expect, var_total, means, np_mean_axis0.
    unfold var_actual, np_var_axis0 in Hv. simpl in *.
    unfold Rsqr in *.
    apply elem_of_cons in Hv as [->|Hv]; [lra|].
    apply elem_of_cons in Hv as [->|Hv]; [lra|].
    by apply not_elem_of_nil in Hv.
Defined.

(** C1 as stated fails: the two reference points of point 0 are equal,
    yet no dimension is marked and the score is 0, not the distance of
    [3; 5] from the mean [1; 2]. *)
Lemma degenerate_reference_set_scores_zero :
  take_rows [[3;5];[1;2];[1;2]] [1;2]%Z = Some [[1;2];[1;2]] ∧
  rel_dim (4/5) 2 2 [[1;2];[1;2]] = 0%Z ∧
  point (4/5) 2 [[3;5];[1;2];[1;2]] [[1;2];[0;2];[0;1]]%Z 0 = Some 0 ∧
  0 < Spec.rms_full 2 2 [[1;2];[1;2]] [3;5].
Proof.
  assert (rel_dim (4/5) 2 2 [[1;2];[1;2]] = 0%Z) as Hrel.
  { apply rel_dim_at_mean. intros row Hrow.
    assert (row = [1;2]) as ->.
    { apply elem_of_cons in Hrow as [->|Hrow]; [done|].
      apply elem_of_cons in Hrow as [->|Hrow]; [done|].
      by apply not_elem_of_nil in Hrow. }
    unfold means, np_mean_axis0. simpl.
    f_equal; [lra|]. f_equal. lra. }
  split; [reflexivity|]. split; [exact Hrel|]. split.
  - rewrite (point_eq _ _ _ _ 0 [3;5] [1;2]%Z [[1;2];[1;2]]) by reflexivity.
    f_equal. by apply score_zero.
  - unfold Spec.rms_full, Spec.sum_over, Spec.mean. simpl.
    apply sqrt_lt_R0. unfold Rsqr. lra.
Qed.

End ScorerClaims.

(** ** The scorer on binary64 numbers *)
Section Float64Arithmetic.
Import Floats Float64.
Local Open Scope float_scope.















(** zeros and NaN: what [x - x] can be, and what stays so *)
Lemma SFsub_self x : zero_or_nan (SF64sub x x).
Proof.
  destruct x as [[]|[]| |s m e]; simpl; try done.
  by rewrite Z.sub_diag.
Qed.

Lemma SFmul_zero_or_nan_l x y : zero_or_nan x → zero_or_nan (SF64mul x y).
Proof. destruct x as [sx|sx| |sx mx ex], y as [sy|sy| |sy my ey]; by simpl. Qed.

Lemma SFmul_zero_or_nan_r x y : zero_or_nan y → zero_or_nan (SF64mul x y).
Proof. destruct x as [sx|sx| |sx mx ex], y as [sy|sy| |sy my ey]; by simpl. Qed.

Lemma SFdiv_zero_or_nan x y : zero_or_nan x → zero_or_nan (SF64div x y).
Proof. destruct x as [sx|sx| |sx mx ex], y as [sy|sy| |sy my ey]; by simpl. Qed.

Lemma SFadd_zero_or_nan x y :
  zero_or_nan x → zero_or_nan y → zero_or_nan (SF64add x y).
Proof.
  destruct x as [[]|sx| |sx mx ex], y as [[]|sy| |sy my ey]; by simpl.
Qed.

Lemma SFltb_zero_or_nan x y :
  zero_or_nan x → zero_or_nan y → SFltb x y = false.
Proof.
  destruct x as [sx|sx| |sx mx ex], y as [sy|sy| |sy my ey]; by simpl.
Qed.

Lemma vanishes_square_sub x : vanishes (square (x - x)).
Proof.
  unfold vanishes, square. rewrite mul_spec, sub_spec.
  apply SFmul_zero_or_nan_l, SFsub_self.
Qed.

Lemma vanishes_add x y : vanishes x → vanishes y → vanishes (x + y).
Proof. unfold vanishes. rewrite add_spec. apply SFadd_zero_or_nan. Qed.

Lemma vanishes_div x y : vanishes x → vanishes (x / y).
Proof. unfold vanishes. rewrite div_spec. apply SFdiv_zero_or_nan. Qed.

Lemma vanishes_mul_r x y : vanishes y → vanishes (x * y).
Proof. unfold vanishes. rewrite mul_spec. apply SFmul_zero_or_nan_r. Qed.

Lemma vanishes_zero : vanishes 0.
Proof. exact I. Qed.

(** a strict comparison between zeros and NaN is false *)
Lemma vanishes_ltb x y : vanishes x → vanishes y → (x <? y) = false.
Proof. unfold vanishes. rewrite ltb_spec. apply SFltb_zero_or_nan. Qed.

Lemma add_reduce_vanishes `{!Reduce} (a : list float) :
  Forall vanishes a → vanishes (add_reduce a).
Proof.
  apply (add_reduce_closed vanishes); [apply vanishes_zero|apply vanishes_add].
Qed.

Lemma in_order_closed (P : float → Prop) (a : list float) :
  P 0 → (∀ x y, P x → P y → P (x + y)) → Forall P a → P (in_order a).
Proof.
  intros H0 Hadd Ha. destruct Ha as [|x a Hx Ha]; [done|]. simpl.
  revert x Hx. induction Ha as [|y a Hy Ha IH]; intros x Hx; [done|].
  simpl. apply IH. by apply Hadd.
Qed.

#[export] Instance in_order_Reduce : Reduce :=
  {| add_reduce := in_order; add_reduce_closed := in_order_closed |}.


Section Point.
Context `{!Reduce}.
Variables (alpha_ : float) (ref_set_ : Z) (d : nat).
Variable ref : list (list float).







End Point.
End Float64Arithmetic.

Section Float64Loop.
Import Floats Float64.
Local Open Scope float_scope.
Context `{!Reduce}.
Variables (alpha_ : float) (ref_set_ : Z).
Variables (X : list (list float)) (ref_inds : list (list Z)).

Lemma f64_iteration_fill c i :
  (i < length c)%nat → c !! i = Some 0 →
  iteration alpha_ ref_set_ X ref_inds (Some c) i
  = fill_step (point alpha_ ref_set_ X ref_inds) (Some c) i.
Proof.
  intros Hi Hc. unfold iteration, fill_step, point, score. simpl.
  destruct (X !! i) as [obs|]; simpl; [|done].
  destruct (ref_inds !! i) as [idx|]; simpl; [|done].
  destruct (take_rows X idx) as [ref|]; simpl; [|done].
  destruct (decide _); [done|].
  by rewrite list_insert_id.
Qed.

Lemma f64_loop_fill len : ∀ m c,
  (∀ j, (m ≤ j < m + len)%nat → (j < length c)%nat ∧ c !! j = Some 0) →
  foldl (iteration alpha_ ref_set_ X ref_inds) (Some c) (seq m len)
  = foldl (fill_step (point alpha_ ref_set_ X ref_inds)) (Some c) (seq m len).
Proof.
  induction len as [|len IH]; intros m c Hzero; [done|].
  cbn [seq foldl].
  destruct (Hzero m ltac:(lia)) as [Hm Hcm].
  rewrite f64_iteration_fill by done.
  destruct (point alpha_ ref_set_ X ref_inds m) as [s|] eqn:Hp; simpl; rewrite Hp.
  - apply IH. intros j Hj. rewrite length_insert.
    rewrite list_lookup_insert_ne by lia. apply Hzero. lia.
  - rewrite fill_raised. clear.
    induction (seq (S m) len) as [|j l IHl]; [done|exact IHl].
Qed.

Lemma f64_sod_loop_mapM :
  sod_loop alpha_ ref_set_ X ref_inds
  = mapM (point alpha_ ref_set_ X ref_inds) (seq 0 (length X)).
Proof.
  unfold sod_loop. rewrite f64_loop_fill.
  - apply fill_any_order, seq_covers.
  - intros j Hj. rewrite length_replicate. split; [lia|].
    apply lookup_replicate_2. lia.
Qed.



Lemma f64_sod_loop_lookup scores i :
  sod_loop alpha_ ref_set_ X ref_inds = Some scores → (i < length X)%nat →
  ∃ obs idx ref,
    X !! i = Some obs ∧ ref_inds !! i = Some idx ∧ take_rows X idx = Some ref ∧
    scores !! i = Some (score alpha_ ref_set_ (shape1 X) ref obs).
Proof.
  rewrite f64_sod_loop_mapM. intros Hs Hi.
  apply mapM_Some_1 in Hs.
  destruct (Forall2_lookup_l _ _ _ i i Hs) as (s & Hsi & Hp).
  { apply lookup_seq. lia. }
  unfold point in Hp.
  destruct (X !! i) as [obs|] eqn:Hobs; [|done].
  destruct (ref_inds !! i) as [idx|] eqn:Hidx; [|done].
  cbn [mbind option_bind] in Hp.
  destruct (take_rows X idx) as [ref|] eqn:Href; [|done].
  exists obs, idx, ref. by simplify_eq/=.
Qed.

End Float64Loop.

(** *** Reference points that coincide with their computed mean *)
Section Float64AtTheMean.
Import Floats Float64.
Local Open Scope float_scope.
Context `{!Reduce}.
Variables (d : nat) (ref : list (list float)).
Hypothesis at_mean : ∀ row, row ∈ ref → row = means d ref.

Lemma f64_means_lookup j :
  (j < d)%nat →
  means d ref !!! j
  = add_reduce (column ref j) / of_int (Z.of_nat (length ref)).
Proof.
  intros Hj. unfold means, np_mean_axis0.
  rewrite (list_lookup_total_fmap
             (λ j, add_reduce (column ref j) / of_int (Z.of_nat (length ref))))
    by (rewrite length_seq; lia).
  by rewrite lookup_total_seq_lt.
Qed.

Lemma f64_column_at_mean j x :
  (j < d)%nat → x ∈ column ref j →
  x = add_reduce (column ref j) / of_int (Z.of_nat (length ref)).
Proof.
  intros Hj (row & -> & Hrow)%list_elem_of_fmap.
  rewrite (at_mean row Hrow) at 1. by apply f64_means_lookup.
Qed.

Lemma f64_var_actual_at_mean : Forall vanishes (var_actual d ref).
Proof.
  unfold var_actual, np_var_axis0. apply Forall_fmap, Forall_forall.
  intros j Hj%elem_of_seq. simpl.
  apply vanishes_div, add_reduce_vanishes, Forall_fmap, Forall_forall.
  intros x Hx. simpl.
  rewrite <- (f64_column_at_mean j x) by (done || lia).
  apply vanishes_square_sub.
Qed.

Lemma f64_square_dev_at_mean row :
  row ∈ ref → Forall vanishes (square_dev row (means d ref)).
Proof.
  intros Hrow. apply Forall_forall. intros x [j Hj]%list_elem_of_lookup.
  apply lookup_zip_with_Some in Hj as (y & z & -> & Hy & Hz).
  rewrite (at_mean row Hrow) in Hy.
  assert (y = z) as -> by congruence.
  apply vanishes_square_sub.
Qed.

Lemma f64_var_total_at_mean ref_set_ : vanishes (var_total ref_set_ d ref).
Proof.
  unfold var_total.
  apply vanishes_div, add_reduce_vanishes, Forall_concat, Forall_fmap,
    Forall_forall.
  intros row Hrow. by apply f64_square_dev_at_mean.
Qed.

Lemma f64_var_expect_at_mean alpha_ ref_set_ :
  vanishes (var_expect alpha_ ref_set_ d ref).
Proof.
  unfold var_expect. apply vanishes_div, vanishes_mul_r, f64_var_total_at_mean.
Qed.

(** no comparison of line 194 succeeds *)
Lemma f64_var_inds_at_mean alpha_ ref_set_ :
  Forall (λ v, v = 0%Z) (var_inds alpha_ ref_set_ d ref).
Proof.
  unfold var_inds. apply Forall_fmap.
  eapply Forall_impl; [apply f64_var_actual_at_mean|].
  intros v Hv. simpl.
  by rewrite vanishes_ltb by (done || apply f64_var_expect_at_mean).
Qed.

Lemma f64_rel_dim_at_mean alpha_ ref_set_ :
  rel_dim alpha_ ref_set_ d ref = 0%Z.
Proof.
  unfold rel_dim.
  induction (f64_var_inds_at_mean alpha_ ref_set_) as [|v l -> _ IH];
    [done|].
  cbn [foldr]. by rewrite IH.
Qed.

Lemma f64_score_at_mean alpha_ ref_set_ obs :
  score alpha_ ref_set_ d ref obs = 0.
Proof.
  unfold score. rewrite f64_rel_dim_at_mean.
  by destruct (decide (0%Z ≠ 0%Z)).
Qed.

End Float64AtTheMean.

Section Float64Degenerate.
Import Floats Float64.
Local Open Scope float_scope.
Context `{!Reduce}.

(** C1, amended.  If every point of the reference set of point i
    coincides with the mean that line 190 computes from the reference
    set (identical reference points whose mean comes out without
    rounding), then every variance of line 193, [var_total] and
    [var_expect] are zeros (or NaN), every comparison of line 194 is
    false, no dimension is marked relevant ([rel_dim = 0], not [d]) and
    the score of i is 0, not the full-dimensional distance from the
    mean. *)
Theorem reference_points_at_computed_mean_score_zero
    (alpha_ : float) (ref_set_ : Z)
    (X : list (list float)) (ref_inds : list (list Z)) i obs idx ref :
  X !! i = Some obs → ref_inds !! i = Some idx → take_rows X idx = Some ref →
  (∀ row, row ∈ ref → row = means (shape1 X) ref) →
  Forall vanishes (var_actual (shape1 X) ref) ∧
  vanishes (var_total ref_set_ (shape1 X) ref) ∧
  vanishes (var_expect alpha_ ref_set_ (shape1 X) ref) ∧
  Forall (λ v, v = 0%Z) (var_inds alpha_ ref_set_ (shape1 X) ref) ∧
  rel_dim alpha_ ref_set_ (shape1 X) ref = 0%Z ∧
  point alpha_ ref_set_ X ref_inds i = Some 0 ∧
  ∀ scores, sod_loop alpha_ ref_set_ X ref_inds = Some scores →
            scores !! i = Some 0.
Proof.
  intros Hobs Hidx Href Hmean.
  split; [by apply f64_var_actual_at_mean|].
  split; [by apply f64_var_total_at_mean|].
  split; [by apply f64_var_expect_at_mean|].
  split; [by apply f64_var_inds_at_mean|].
  split; [by apply f64_rel_dim_at_mean|].
  split.
  - unfold point. rewrite Hobs, Hidx. cbn [mbind option_bind].
    rewrite Href. cbn [mbind option_bind].
    by rewrite f64_score_at_mean.
  - intros scores Hs.
    destruct (f64_sod_loop_lookup _ _ _ _ scores i Hs)
      as (obs' & idx' & ref' & Hobs' & Hidx' & Href' & ->).
    { by eapply lookup_lt_Some. }
    simplify_eq. by rewrite f64_score_at_mean.
Qed.

End Float64Degenerate.

Section Float64Claims.
Import Floats Float64.
Local Open Scope float_scope.
Context `{!Reduce}.


End Float64Claims.

Section Float64Examples.
Import Floats Float64.
Local Open Scope float_scope.

Lemma reference_points_at_computed_mean_score_zero_witness :
  Forall vanishes (var_actual 2 [[0.5; 0.75]; [0.5; 0.75]]) ∧
  vanishes (var_total 2 2 [[0.5; 0.75]; [0.5; 0.75]]) ∧
  vanishes (var_expect 0.75 2 2 [[0.5; 0.75]; [0.5; 0.75]]) ∧
  Forall (λ v, v = 0%Z) (var_inds 0.75 2 2 [[0.5; 0.75]; [0.5; 0.75]]) ∧
  rel_dim 0.75 2 2 [[0.5; 0.75]; [0.5; 0.75]] = 0%Z ∧
  point 0.75 2 [[3; 5]; [0.5; 0.75]; [0.5; 0.75]]
    [[1; 2]; [0; 2]; [0; 1]]%Z 0 = Some 0 ∧
  ∀ scores,
    sod_loop 0.75 2 [[3; 5]; [0.5; 0.75]; [0.5; 0.75]]
      [[1; 2]; [0; 2]; [0; 1]]%Z = Some scores →
    scores !! 0%nat = Some 0.
Proof.
  apply (reference_points_at_computed_mean_score_zero 0.75 2
           [[3; 5]; [0.5; 0.75]; [0.5; 0.75]] [[1; 2]; [0; 2]; [0; 1]]%Z
           0 [3; 5] [1; 2]%Z [[0.5; 0.75]; [0.5; 0.75]]).
  - reflexivity.
  - reflexivity.
  - reflexivity.
  - intros row Hrow.
    assert (row = [0.5; 0.75]) as ->.
    { apply elem_of_cons in Hrow as [->|Hrow]; [done|].
      apply elem_of_cons in Hrow as [->|Hrow]; [done|].
      by apply not_elem_of_nil in Hrow. }
    by vm_compute.
Defined.



(** X16.  Identical reference points do not suffice for [rel_dim = 0]:
    the mean of three times 0.1 is rounded to 0.10000000000000002, the
    rounding error counts as variance, and the dimension whose mean is
    exact becomes the only relevant one; the score of [0.1; 7] is its
    distance 6 from the mean in that dimension. *)
Lemma identical_points_rounded_mean :
  means 2 [[0x1.999999999999ap-4; 1]; [0x1.999999999999ap-4; 1];
           [0x1.999999999999ap-4; 1]]
    = [0x1.999999999999bp-4; 1] ∧
  var_inds 0.5 3 2 [[0x1.999999999999ap-4; 1]; [0x1.999999999999ap-4; 1];
                    [0x1.999999999999ap-4; 1]] = [0; 1]%Z ∧
  rel_dim 0.5 3 2 [[0x1.999999999999ap-4; 1]; [0x1.999999999999ap-4; 1];
                   [0x1.999999999999ap-4; 1]] = 1%Z ∧
  score 0.5 3 2 [[0x1.999999999999ap-4; 1]; [0x1.999999999999ap-4; 1];
                 [0x1.999999999999ap-4; 1]] [0x1.999999999999ap-4; 7] = 6.
Proof. do 3 (split; [by vm_compute|]). by vm_compute. Qed.

End Float64Examples.

(** ** The source against the per-point algorithm of the specification *)
Section Refinement.
Import Scorer.
Local Open Scope R_scope.

Lemma np_sum_cons x (l : list R) : np_sum (x :: l) = x + np_sum l.
Proof. reflexivity. Qed.

Lemma np_sum_app (a b : list R) : np_sum (a ++ b) = np_sum a + np_sum b.
Proof.
  induction a as [|x a IH]; [simpl; lra|].
  rewrite <- app_comm_cons, !np_sum_cons, IH. lra.
Qed.

Lemma np_sum_plus {A} (f g : A → R) (l : list A) :
  np_sum ((λ j, f j + g j) <$> l) = np_sum (f <$> l) + np_sum (g <$> l).
Proof.
  induction l as [|x l IH]; [simpl; lra|].
  rewrite !fmap_cons, !np_sum_cons, IH. lra.
Qed.

(** summing row by row or column by column *)
Lemma np_sum_rows_columns {A B} (F : A → B → R) (rows : list A) (dims : list B) :
  np_sum (concat ((λ p, (λ j, F p j) <$> dims) <$> rows))
  = np_sum ((λ j, np_sum ((λ p, F p j) <$> rows)) <$> dims).
Proof.
  induction rows as [|p rows IH].
  - symmetry. apply np_sum_zero, Forall_fmap, Forall_forall. done.
  - rewrite fmap_cons. cbn [concat]. rewrite np_sum_app, IH.
    symmetry. apply (np_sum_plus (F p)).
Qed.

Lemma zip_with_seq {A} `{Inhabited A} (g : A → R → R) (f : nat → R)
    (a : list A) (d : nat) :
  length a = d →
  zip_with g a (f <$> seq 0 d) = (λ j, g (a !!! j) (f j)) <$> seq 0 d.
Proof.
  intros Hlen. apply list_eq. intros j.
  rewrite lookup_zip_with, !list_lookup_fmap.
  destruct (decide (j < d)%nat) as [Hj|Hj].
  - rewrite (list_lookup_lookup_total_lt a j) by lia.
    by rewrite lookup_seq_lt.
  - rewrite (lookup_ge_None_2 (seq 0 d)) by (rewrite length_seq; lia).
    simpl. by destruct (a !! j).
Qed.

Lemma count_marks (P : nat → Prop) `{∀ j, Decision (P j)} (dims : list nat) :
  foldr Z.add 0%Z ((λ j, if decide (P j) then 1%Z else 0%Z) <$> dims)
  = Z.of_nat (length (filter P dims)).
Proof.
  induction dims as [|j dims IH]; [done|].
  rewrite fmap_cons, filter_cons. cbn [foldr]. rewrite IH.
  destruct (decide (P j)); simpl; lia.
Qed.


Section Point.
Variables (alpha : R) (r d : nat) (ref : list (list R)) (obs : list R).
Hypothesis ref_rows : length ref = r.
Hypothesis ref_cols : Forall (λ row, length row = d) ref.
Hypothesis obs_cols : length obs = d.

Lemma means_spec : means d ref = Spec.mean r ref <$> seq 0 d.
Proof.
  unfold means, np_mean_axis0, Spec.mean, column. by rewrite ref_rows.
Qed.

Lemma square_dev_spec (a : list R) :
  length a = d →
  square_dev a (means d ref)
  = (λ j, Rsqr (a !!! j - Spec.mean r ref j)) <$> seq 0 d.
Proof.
  intros Ha. unfold square_dev. rewrite means_spec.
  by apply (zip_with_seq (λ x m, Rsqr (x - m)) (Spec.mean r ref)).
Qed.

Lemma var_total_spec : var_total (Z.of_nat r) d ref = Spec.var_total r d ref.
Proof.
  unfold var_total, Spec.var_total, Spec.sum_over, Spec.sq_deviation.
  rewrite <- INR_IZR_INZ. f_equal.
  rewrite <- np_sum_rows_columns. f_equal. f_equal.
  apply Forall_fmap_ext_1. eapply Forall_impl; [exact ref_cols|].
  intros row Hrow. simpl. by apply square_dev_spec.
Qed.

Lemma var_expect_spec :
  var_expect alpha (Z.of_nat r) d ref = Spec.var_expect alpha r d ref.
Proof. unfold var_expect, Spec.var_expect. by rewrite var_total_spec. Qed.

Lemma var_actual_spec : var_actual d ref = Spec.var_actual r ref <$> seq 0 d.
Proof.
  unfold var_actual, np_var_axis0. apply list_fmap_ext. intros _ j _. simpl.
  unfold Spec.var_actual, Spec.sq_deviation, Spec.mean, column.
  rewrite ref_rows. f_equal. by rewrite <- list_fmap_compose.
Qed.

(** the 0/1 marks of the source, as a function of the dimension *)
Lemma var_inds_spec :
  var_inds alpha (Z.of_nat r) d ref
  = (λ j, if decide (Spec.relevant alpha r d ref j) then 1%Z else 0%Z)
      <$> seq 0 d.
Proof.
  unfold var_inds. rewrite var_actual_spec, var_expect_spec.
  rewrite <- list_fmap_compose. apply list_fmap_ext. intros _ j _. simpl.
  unfold decide, Spec.relevant_dec, Spec.relevant. by destruct (Rlt_dec _ _).
Qed.

Lemma rel_dim_spec :
  rel_dim alpha (Z.of_nat r) d ref = Z.of_nat (Spec.rel_dim alpha r d ref).
Proof. unfold rel_dim. rewrite var_inds_spec. apply count_marks. Qed.



End Point.
End Refinement.


Section RefinementClaim.
Import Scorer.
Local Open Scope R_scope.

Lemma take_rows_length X idx ref :
  take_rows X idx = Some ref → length ref = length idx.
Proof. intros Href. symmetry. by eapply length_mapM. Qed.

Lemma take_rows_elem X idx ref row :
  take_rows X idx = Some ref → row ∈ ref → row ∈ X.
Proof.
  intros Href [j Hj]%list_elem_of_lookup.
  apply mapM_Some_1 in Href.
  destruct (Forall2_lookup_r _ _ _ j row Href Hj) as (z & _ & Hz).
  by eapply list_elem_of_lookup_2.
Qed.




End RefinementClaim.

(** ** The detector's methods *)
Section MethodFacts.
Import SNN Scorer Detector.
Context `{!ArgSort} `{!Scheduler} `{!Collaborators}.
Local Open Scope R_scope.

Lemma decision_function_run self X h :
  decision_function self X h = (h !! self ≫= λ det, sod_of det X, h).
Proof.
  unfold decision_function, _sod, _snn, sod_of, bind, getattr, lift.
  destruct (h !! self) as [det|] eqn:Hdet;
    cbn [fmap option_fmap option_map mbind option_bind]; [|done].
  destruct (kneighbors (n_neighbors_ det) X) as [ind|];
    cbn [mbind option_bind]; [|done].
  rewrite ?Hdet. cbn [fmap option_fmap option_map].
  destruct (call_snn_imp ind (ref_set_ det));
    cbn [mbind option_bind]; [|done].
  rewrite ?Hdet. by cbn [fmap option_fmap option_map].
Qed.

(** [decision_function] only reads the store. *)
Lemma decision_function_frame self X h : (decision_function self X h).2 = h.
Proof. by rewrite decision_function_run. Qed.

(** every index stored in a row addresses a point *)
Lemma selected_in_range ind r i z :
  z ∈ selected ind r i → (0 ≤ z)%Z ∧ (Z.to_nat z < length ind)%nat.
Proof.
  unfold selected. fold (picked ind r i).
  intros (j & -> & Hj)%list_elem_of_fmap.
  apply picked_in_range in Hj. unfold to_uint32.
  pose proof (Z.mod_pos_bound (Z.of_nat j) 4294967296 ltac:(lia)).
  pose proof (Z.mod_le (Z.of_nat j) 4294967296 ltac:(lia) ltac:(lia)).
  lia.
Qed.

Lemma take_rows_total (X : list (list R)) (idx : list Z) :
  (∀ z, z ∈ idx → (Z.to_nat z < length X)%nat) → is_Some (take_rows X idx).
Proof.
  intros Hidx. apply mapM_is_Some, Forall_forall. intros z Hz. simpl.
  apply lookup_lt_is_Some. by apply Hidx.
Qed.

(** With more points than [ref_set_], no iteration of either loop raises. *)
Lemma sod_loop_total alpha ref_set X ind r :
  length ind = length X → (r < length X)%nat →
  ∃ ref_inds scores,
    _snn_imp ind r = Some ref_inds ∧
    sod_loop alpha ref_set X ref_inds = Some scores.
Proof.
  intros Hlen Hr.
  exists (selected ind r <$> seq 0 (length ind)).
  assert (is_Some (sod_loop alpha ref_set X
                     (selected ind r <$> seq 0 (length ind)))) as [scores Hs].
  { rewrite sod_loop_mapM. apply mapM_is_Some, Forall_forall.
    intros i Hi%elem_of_seq. simpl. unfold point.
    destruct (lookup_lt_is_Some_2 X i ltac:(lia)) as [obs ->]. simpl.
    rewrite list_lookup_fmap, lookup_seq_lt by lia. simpl.
    destruct (take_rows_total X (selected ind r i)) as [ref ->]; [|done].
    intros z Hz. apply selected_in_range in Hz. lia. }
  exists scores. split; [|done]. apply snn_imp_rows. lia.
Qed.

Lemma sod_loop_scores alpha ref_set X ref_inds scores :
  sod_loop alpha ref_set X ref_inds = Some scores →
  length scores = length X ∧ Forall (λ s, 0 <= s) scores.
Proof.
  intros Hs. split.
  - rewrite sod_loop_mapM in Hs. apply length_mapM in Hs.
    by rewrite length_seq in Hs.
  - apply Forall_forall. intros s [i Hi]%list_elem_of_lookup.
    assert (i < length X)%nat as HiX.
    { rewrite sod_loop_mapM in Hs. apply length_mapM in Hs.
      rewrite length_seq in Hs. apply lookup_lt_Some in Hi. lia. }
    destruct (sod_loop_lookup _ _ _ _ _ i Hs HiX)
      as (obs & idx & ref & _ & _ & _ & Hsi).
    rewrite Hi in Hsi. injection Hsi as ->. apply score_nonneg.
Qed.

End MethodFacts.

Section StandIn.
Import Detector.

Lemma ring_kneighbors_shape k X ind :
  ring_kneighbors k X = Some ind →
  length ind = length X ∧ Forall (λ row, length row = Z.to_nat k) ind.
Proof.
  unfold ring_kneighbors. case_decide; [|done]. intros [= <-].
  split; [by rewrite length_fmap, length_seq|].
  apply Forall_fmap, Forall_forall. intros i _. simpl.
  by rewrite length_fmap, length_seq.
Qed.

#[export] Instance ring_collaborators : Collaborators :=
  {| kneighbors := ring_kneighbors;
     kneighbors_shape := ring_kneighbors_shape;
     check_array := Some;
     _set_n_classes := λ _, ret tt;
     _process_decision_scores := λ _, ret tt |}.

End StandIn.


Section Determinism.
Import SNN Scorer Detector.

(** C8.  The selection in row i is the slice [1 : ref_set_ + 1] of the
    reversed [argsort] of [temp]: ties are settled by the order [argsort]
    returns and by nothing else.  The order in which the parallel loop
    runs its iterations has no effect: two runs on the same input return
    the same reference-set matrix and the same scores. *)
Theorem snn_and_scores_deterministic `{!ArgSort} `{!Collaborators}
    (run1 run2 : Scheduler)
    (ind : list (list Z)) (r : nat) (self : positive)
    (X : list (list R)) (h : store) :
  @_snn_imp _ run1 ind r = @_snn_imp _ run2 ind r ∧
  @decision_function _ run1 _ self X h = @decision_function _ run2 _ self X h ∧
  @fit _ run1 _ self X h = @fit _ run2 _ self X h ∧
  ((r < length ind)%nat →
   ∃ _count, @_snn_imp _ run1 ind r = Some _count ∧
     ∀ i, (i < length ind)%nat →
       _count !! i
       = Some ((λ j : nat, to_uint32 (Z.of_nat j))
                 <$> take r (drop 1 (reverse (argsort (temp ind i)))))).
Proof.
  assert (∀ ind r, @_snn_imp _ run1 ind r = @_snn_imp _ run2 ind r) as Hsnn.
  { intros ind' r'. by rewrite !snn_imp_mapM. }
  assert (∀ X h, @decision_function _ run1 _ self X h
                 = @decision_function _ run2 _ self X h) as Hdf.
  { intros X' h'. rewrite !decision_function_run. f_equal.
    destruct (h' !! self) as [det|]; simpl; [|done].
    unfold sod_of, call_snn_imp. destruct (kneighbors _ _); simpl; [|done].
    by rewrite Hsnn. }
  split; [apply Hsnn|]. split; [apply Hdf|]. split.
  - unfold fit, bind. destruct (lift (check_array X) h) as [[X'|] h0]; [|done].
    destruct (_set_n_classes self h0) as [[[]|] h1]; [|done].
    by rewrite Hdf.
  - intros Hr. eexists. split; [by apply snn_imp_rows|].
    intros i Hi. by rewrite list_lookup_fmap, lookup_seq_lt.
Qed.

End Determinism.

(** a step of [fit] raised: no value is returned *)
Ltac raised :=
  split;
  [done
  |intros (_ & ? & ? & ? & ? & ? & ? & ? & ? & ? & ?); simplify_eq; congruence].


(** ** The constructor *)
Section Constructor.
Import Detector.
Local Open Scope R_scope.

Lemma check_parameter_low `{RangeDefaults} param low :
  check_parameter param low None = true ↔ above low param.
Proof.
  unfold check_parameter, above. rewrite andb_true_r.
  destruct include_left; apply bool_decide_eq_true.
Qed.

Lemma check_parameter_range `{RangeDefaults} param low high :
  check_parameter param low (Some high) = true
  ↔ above low param ∧ below param high.
Proof.
  unfold check_parameter, above, below. rewrite andb_true_iff.
  destruct include_left, include_right; by rewrite !bool_decide_eq_true.
Qed.

Lemma above_strict `{RangeDefaults} low param : low < param → above low param.
Proof. unfold above. destruct include_left; lra. Qed.

Lemma below_strict `{RangeDefaults} param high : param < high → below param high.
Proof. unfold below. destruct include_right; lra. Qed.

Lemma above_le `{RangeDefaults} low param : above low param → low <= param.
Proof. unfold above. destruct include_left; lra. Qed.

Lemma below_le `{RangeDefaults} param high : below param high → param <= high.
Proof. unfold below. destruct include_right; lra. Qed.

Lemma BaseDetector_init_Some contamination c :
  BaseDetector__init__ contamination = Some c
  ↔ contamination = PyFloat c ∧ 0 < c < 1/2.
Proof.
  unfold BaseDetector__init__.
  destruct contamination as [z|b|x|]; try (split; [done|intros [[=] _]]).
  case_bool_decide as Hc.
  - split; [intros [= ->]; done|]. by intros [[= ->] _].
  - split; [done|]. intros [[= ->] Hx]. tauto.
Qed.

(** when the constructor returns, and what it returns *)
Lemma init_Some `{RangeDefaults} contamination n_neighbors ref_set alpha det :
  __init__ contamination n_neighbors ref_set alpha = Some det
  ↔ ∃ (nn rs : Z) (a c : R),
      contamination = PyFloat c ∧ 0 < c < 1/2 ∧
      int_value n_neighbors = Some nn ∧ above 1 (IZR nn) ∧
      int_value ref_set = Some rs ∧
      above 1 (IZR rs) ∧ below (IZR rs) (IZR nn) ∧
      alpha = PyFloat a ∧ above 0 a ∧ below a 1 ∧
      det = {| contamination := c; n_neighbors_ := nn; ref_set_ := rs;
               alpha_ := a; decision_scores_ := None;
               threshold_ := None; labels_ := None |}.
Proof.
  unfold __init__. split.
  - intros Hinit.
    destruct (BaseDetector__init__ contamination) as [c|] eqn:Hc; [|done].
    apply BaseDetector_init_Some in Hc as [-> Hc].
    destruct (int_value n_neighbors) as [nn|]; [|done].
    cbn [mbind option_bind] in Hinit.
    case_guard as Hnn; [|done].
    destruct (int_value ref_set) as [rs|]; [|done].
    cbn [mbind option_bind] in Hinit.
    case_guard as Hrs; [|done].
    destruct alpha as [| |a|]; try done.
    cbn [mbind option_bind float_value] in Hinit.
    case_guard as Ha; [|done].
    cbn [mbind option_bind] in Hinit. injection Hinit as <-.
    apply check_parameter_low in Hnn.
    apply check_parameter_range in Hrs as [? ?], Ha as [? ?].
    by exists nn, rs, a, c.
  - intros (nn & rs & a & c & -> & Hc & -> & Hnn & -> & Hrs1 & Hrs2
            & -> & Ha1 & Ha2 & ->).
    rewrite (proj2 (BaseDetector_init_Some (PyFloat c) c)) by done.
    cbn [mbind option_bind float_value].
    rewrite !option_guard_True; [done|..].
    + by apply check_parameter_range.
    + by apply check_parameter_range.
    + by apply check_parameter_low.
Qed.

End Constructor.

Section ConstructorClaims.
Import Detector.
Local Open Scope R_scope.

(** C6 as stated fails whatever the default bounds of [check_parameter]
    are.  If the lower bound is exclusive, [ref_set = 1] with
    [n_neighbors = 5] is refused although the specification admits it; if
    it is inclusive, [alpha = 0.0] is accepted although the specification
    refuses it. *)
Lemma init_bounds_disagree_with_spec :
  ¬ ∃ defaults : RangeDefaults,
      ∀ contamination n_neighbors ref_set alpha,
        @__init__ defaults contamination n_neighbors ref_set alpha = None
        ↔ ¬ ConfigSpec.admits contamination n_neighbors ref_set alpha.
Proof.
  intros [[il ir] Hclaim]. destruct il.
  - (* inclusive: alpha = 0.0 is accepted *)
    specialize (Hclaim (PyFloat (1/10)) (PyInt 5) (PyInt 2) (PyFloat 0)).
    destruct Hclaim as [_ Hclaim].
    assert (@__init__ {| include_left := true; include_right := ir |}
              (PyFloat (1/10)) (PyInt 5) (PyInt 2) (PyFloat 0) = None)
      as Hnone.
    { apply Hclaim. intros (nn & rs & a & c & _ & _ & Ha & _ & _ & _ & _ & _
                            & Harange & _).
      simpl in Ha. injection Ha as <-. lra. }
    apply eq_None_not_Some in Hnone. apply Hnone. eexists.
    apply init_Some. exists 5%Z, 2%Z, 0, (1/10).
    unfold above, below. simpl. destruct ir; repeat split; lra.
  - (* exclusive: ref_set = 1 is refused *)
    specialize (Hclaim (PyFloat (1/10)) (PyInt 5) (PyInt 1) (PyFloat (4/5))).
    destruct Hclaim as [Hclaim _].
    apply Hclaim.
    + apply eq_None_not_Some. intros [det Hdet].
      apply init_Some in Hdet
        as (nn & rs & a & c & _ & _ & _ & _ & Hrs & Hlow & _).
      simpl in Hrs. injection Hrs as <-.
      unfold above in Hlow. simpl in Hlow. lra.
    + exists 5%Z, 1%Z, (4/5), (1/10). simpl. repeat split; (lra || lia).
Qed.

(** C6, amended.  Construction returns an instance exactly when
    [contamination] is a float in (0, 0.5), [n_neighbors] and [ref_set]
    are ints, [alpha] is a float, and the three range checks pass:
    [n_neighbors] against 1, [ref_set] against 1 and [n_neighbors],
    [alpha] against 0.0 and 1.0, each with the default bounds of
    [check_parameter]; otherwise it raises and there is no instance.  So,
    whatever the defaults: a configuration with 1 < ref_set < n_neighbors
    and 0 < alpha < 1 is accepted, and one with n_neighbors < 1,
    ref_set < 1, ref_set > n_neighbors, alpha < 0 or alpha > 1 is
    refused. *)
Theorem init_validates_configuration `{RangeDefaults}
    (contamination n_neighbors ref_set alpha : pyval) :
  (__init__ contamination n_neighbors ref_set alpha = None
   ↔ ¬ ∃ (nn rs : Z) (a c : R),
         contamination = PyFloat c ∧ 0 < c < 1/2 ∧
         int_value n_neighbors = Some nn ∧ above 1 (IZR nn) ∧
         int_value ref_set = Some rs ∧
         above 1 (IZR rs) ∧ below (IZR rs) (IZR nn) ∧
         alpha = PyFloat a ∧ above 0 a ∧ below a 1) ∧
  (∀ det, __init__ contamination n_neighbors ref_set alpha = Some det →
     int_value n_neighbors = Some (n_neighbors_ det) ∧
     int_value ref_set = Some (ref_set_ det) ∧
     alpha = PyFloat (alpha_ det) ∧
     contamination = PyFloat (Detector.contamination det) ∧
     decision_scores_ det = None ∧
     (1 ≤ ref_set_ det ≤ n_neighbors_ det)%Z ∧ 0 <= alpha_ det <= 1) ∧
  (∀ (nn rs : Z) (a c : R),
     contamination = PyFloat c → 0 < c < 1/2 →
     int_value n_neighbors = Some nn → int_value ref_set = Some rs →
     alpha = PyFloat a →
     (1 < rs < nn)%Z → 0 < a < 1 →
     is_Some (__init__ contamination n_neighbors ref_set alpha)) ∧
  (∀ (nn rs : Z),
     int_value n_neighbors = Some nn → int_value ref_set = Some rs →
     (nn < 1 ∨ rs < 1 ∨ nn < rs)%Z →
     __init__ contamination n_neighbors ref_set alpha = None) ∧
  (∀ a : R, alpha = PyFloat a → a < 0 ∨ 1 < a →
     __init__ contamination n_neighbors ref_set alpha = None).
Proof.
  split; [|split; [|split; [|split]]].
  - rewrite eq_None_not_Some. apply not_iff_compat. split.
    + intros [det Hdet]. apply init_Some in Hdet
        as (nn & rs & a & c & ? & ? & ? & ? & ? & ? & ? & ? & ? & ? & _).
      by exists nn, rs, a, c.
    + intros (nn & rs & a & c & ? & ? & ? & ? & ? & ? & ? & ? & ? & ?).
      eexists. apply init_Some. by exists nn, rs, a, c.
  - intros det Hdet. apply init_Some in Hdet
      as (nn & rs & a & c & -> & Hc & Hnn & Hnn1 & Hrs & Hrs1 & Hrs2
          & -> & Ha1 & Ha2 & ->).
    simpl. repeat split; try done.
    + apply above_le in Hrs1. by apply le_IZR.
    + apply below_le in Hrs2. by apply le_IZR.
    + by apply above_le.
    + by apply below_le.
  - intros nn rs a c -> Hc Hnn Hrs -> [Hrs1 Hrs2] [Ha1 Ha2].
    eexists. apply init_Some. exists nn, rs, a, c.
    repeat split; try done; try lra.
    + apply above_strict, IZR_lt. lia.
    + apply above_strict, IZR_lt. lia.
    + apply below_strict, IZR_lt. lia.
    + by apply above_strict.
    + by apply below_strict.
  - intros nn rs Hnn Hrs Hout. apply eq_None_not_Some. intros [det Hdet].
    apply init_Some in Hdet
      as (nn' & rs' & a & c & _ & _ & Hnn' & Hnn1 & Hrs' & Hrs1 & Hrs2 & _).
    simplify_eq.
    apply above_le, le_IZR in Hnn1, Hrs1. apply below_le, le_IZR in Hrs2.
    lia.
  - intros a -> Hout. apply eq_None_not_Some. intros [det Hdet].
    apply init_Some in Hdet
      as (nn & rs & a' & c & _ & _ & _ & _ & _ & _ & _ & Ha & Ha1 & Ha2 & _).
    simplify_eq. apply above_le in Ha1. apply below_le in Ha2. lra.
Qed.

End ConstructorClaims.

(** * Further properties of the code *)

(** ** What [_snn_imp] returns, on any input *)
Section BuilderResult.
Import SNN.
Context `{!ArgSort} `{!Scheduler}.
Local Open Scope Z_scope.

Lemma assign_row_Some r (src row : list Z) :
  assign_row r src = Some row →
  length row = r ∧ ∀ z, z ∈ row → z ∈ src.
Proof.
  unfold assign_row. case_decide as Hlen.
  - intros [= <-]. done.
  - destruct src as [|x [|y src]]; [done| |done].
    intros [= <-]. split; [by rewrite length_replicate|].
    intros z ->%elem_of_replicate_inv. by left.
Qed.

Lemma snn_imp_Some_row ind r _count i row :
  _snn_imp ind r = Some _count → _count !! i = Some row →
  (i < length ind)%nat ∧ row_of ind r i = Some row.
Proof.
  rewrite snn_imp_mapM. intros Hc%mapM_Some_1 Hrow.
  destruct (Forall2_lookup_r _ _ _ i row Hc Hrow) as (i' & Hi' & Hrow').
  apply lookup_seq in Hi' as [-> Hi']. done.
Qed.

(** X1.  Whenever [_snn_imp] returns, on any index matrix and of any
    size, the result has one row per point, every row has [ref_set_]
    cells, and every cell holds the index of a point: the rows can be used
    to index [X] without an [IndexError]. *)
Theorem snn_result_indexes_points (ind : list (list Z)) (r : nat) _count :
  _snn_imp ind r = Some _count →
  length _count = length ind ∧
  ∀ i row, _count !! i = Some row →
    length row = r ∧
    ∀ z, z ∈ row → 0 ≤ z ∧ (Z.to_nat z < length ind)%nat.
Proof.
  intros Hc. split.
  - rewrite snn_imp_mapM in Hc. apply length_mapM in Hc.
    by rewrite length_seq in Hc.
  - intros i row Hrow.
    destruct (snn_imp_Some_row _ _ _ _ _ Hc Hrow) as [_ Hr].
    apply assign_row_Some in Hr as [Hlen Hsub]. split; [done|].
    intros z Hz. apply Hsub in Hz. by eapply selected_in_range.
Qed.

End BuilderResult.

Section BuilderResultWitness.
Import SNN.
Local Open Scope Z_scope.

Lemma snn_result_indexes_points_witness :
  length [[1;1];[0;0]] = length [[1];[0]] ∧
  ∀ i row, [[1;1];[0;0]] !! i = Some row →
    length row = 2%nat ∧
    ∀ z, z ∈ row → 0 ≤ z ∧ (Z.to_nat z < length [[1];[0]])%nat.
Proof.
  apply (snn_result_indexes_points [[1];[0]] 2 [[1;1];[0;0]]).
  reflexivity.
Defined.

End BuilderResultWitness.

(** ** Rows of the neighbour matrix are read as sets *)
Section RowsAsSets.
Import SNN.
Context `{!ArgSort} `{!Scheduler}.
Local Open Scope Z_scope.

Lemma same_neighbours_set a b :
  same_neighbours a b → (list_to_set a : gset Z) = list_to_set b.
Proof.
  intros Hab. apply set_eq. intros x. rewrite !elem_of_list_to_set. apply Hab.
Qed.

Lemma same_neighbours_lookup ind ind' i :
  Forall2 same_neighbours ind ind' →
  same_neighbours (ind !!! i) (ind' !!! i).
Proof.
  intros Hrows. rewrite !list_lookup_total_alt.
  destruct (ind !! i) as [a|] eqn:Ha.
  - destruct (Forall2_lookup_l _ _ _ _ _ Hrows Ha) as (b & -> & Hab). done.
  - apply lookup_ge_None in Ha. rewrite (Forall2_length _ _ _ Hrows) in Ha.
    apply lookup_ge_None in Ha. by rewrite Ha.
Qed.

Lemma temp_same_neighbours ind ind' i :
  Forall2 same_neighbours ind ind' → temp ind i = temp ind' i.
Proof.
  intros Hrows. unfold temp. f_equal.
  apply list_eq_Forall2, Forall2_fmap.
  eapply Forall2_impl; [exact Hrows|].
  intros a b Hab. simpl. unfold shared.
  rewrite (same_neighbours_set a b Hab).
  by rewrite (same_neighbours_set _ _ (same_neighbours_lookup _ _ i Hrows)).
Qed.

(** X2.  [_snn_imp] reads each row of [ind] as a set: listing the
    neighbours of a point in another order, or more than once, does not
    change the result. *)
Theorem snn_reads_rows_as_sets (ind ind' : list (list Z)) (r : nat) :
  Forall2 same_neighbours ind ind' → _snn_imp ind r = _snn_imp ind' r.
Proof.
  intros Hrows. rewrite !snn_imp_mapM.
  rewrite <- (Forall2_length _ _ _ Hrows).
  apply mapM_ext. intros i. unfold row_of, selected, ranking.
  by rewrite (temp_same_neighbours _ _ i Hrows).
Qed.

End RowsAsSets.

Section RowsAsSetsWitness.
Import SNN.
Local Open Scope Z_scope.

Lemma snn_reads_rows_as_sets_witness :
  _snn_imp [[1;2];[0;2];[0;1]] 1 = _snn_imp [[2;1];[2;0;0];[1;0]] 1.
Proof.
  apply snn_reads_rows_as_sets.
  constructor; [|constructor; [|constructor; [|constructor]]];
    intros x; rewrite !elem_of_cons, !elem_of_nil; tauto.
Defined.

End RowsAsSetsWitness.

(** ** The dimension of largest variance (exact arithmetic) *)
Section LargestVariance.
Import Scorer.
Local Open Scope R_scope.

Lemma np_sum_div {A} (g : A → R) (k : R) (l : list A) :
  np_sum (g <$> l) / k = np_sum ((λ j, g j / k) <$> l).
Proof.
  induction l as [|x l IH]; [simpl; unfold Rdiv; lra|].
  rewrite !fmap_cons, !np_sum_cons, <- IH. unfold Rdiv. lra.
Qed.

Lemma np_sum_below {A} (f : A → R) (c : R) (l : list A) :
  l ≠ [] → (∀ x, x ∈ l → f x < c) →
  np_sum (f <$> l) < INR (length l) * c.
Proof.
  induction l as [|x l IH]; [done|]. intros _ Hall.
  rewrite fmap_cons, np_sum_cons. cbn [length]. rewrite S_INR.
  pose proof (Hall x ltac:(left)) as Hx.
  destruct l as [|y l]; [simpl; lra|].
  assert (np_sum (f <$> y :: l) < INR (length (y :: l)) * c) as Hl.
  { apply IH; [done|]. intros z Hz. apply Hall. by right. }
  lra.
Qed.

Section Point.
Variables (alpha : R) (r d : nat) (ref : list (list R)).
Hypothesis ref_rows : length ref = r.
Hypothesis ref_cols : Forall (λ row, length row = d) ref.
Hypothesis r_pos : (0 < r)%nat.
Hypothesis d_pos : (0 < d)%nat.
Hypothesis alpha_le_1 : alpha <= 1.

(** [var_total] is the sum of the variances of the dimensions. *)
Lemma var_total_sum_of_variances :
  Spec.var_total r d ref = Spec.sum_over (seq 0 d) (Spec.var_actual r ref).
Proof. unfold Spec.var_total, Spec.sum_over, Spec.var_actual. apply np_sum_div. Qed.

Lemma spec_var_total_nonneg : 0 <= Spec.var_total r d ref.
Proof.
  unfold Spec.var_total, Spec.sum_over.
  apply Rmult_le_pos.
  - apply np_sum_nonneg, Forall_fmap, Forall_forall. intros j _. simpl.
    apply np_sum_nonneg, Forall_fmap, Forall_forall. intros p _. simpl.
    apply Rle_0_sqr.
  - apply Rlt_le, Rinv_0_lt_compat, lt_0_INR, r_pos.
Qed.

Lemma some_dimension_not_relevant :
  ∃ j, j ∈ seq 0 d ∧ ¬ Spec.relevant alpha r d ref j.
Proof.
  destruct (decide (Forall (Spec.relevant alpha r d ref) (seq 0 d)))
    as [Hall|Hex].
  - exfalso. rewrite Forall_forall in Hall.
    assert (seq 0 d ≠ []) as Hne by (destruct d; [lia|done]).
    pose proof (np_sum_below (Spec.var_actual r ref)
                  (Spec.var_expect alpha r d ref) (seq 0 d) Hne Hall) as Hlt.
    fold (Spec.sum_over (seq 0 d) (Spec.var_actual r ref)) in Hlt.
    rewrite <- var_total_sum_of_variances, length_seq in Hlt.
    unfold Spec.var_expect in Hlt.
    pose proof spec_var_total_nonneg as Hnn.
    assert (0 < INR d) as Hd by (apply lt_0_INR, d_pos).
    replace (INR d * (alpha * Spec.var_total r d ref / INR d))
      with (alpha * Spec.var_total r d ref) in Hlt by (field; lra).
    nra.
  - apply not_Forall_Exists in Hex; [|apply _].
    by apply Exists_exists in Hex.
Qed.

Lemma rel_dim_below_d :
  (rel_dim alpha (Z.of_nat r) d ref < Z.of_nat d)%Z.
Proof.
  rewrite rel_dim_spec by done.
  destruct some_dimension_not_relevant as (j & Hj & Hnot).
  pose proof (length_filter_lt (Spec.relevant alpha r d ref) _ j Hj Hnot) as Hlt.
  rewrite length_seq in Hlt. unfold Spec.rel_dim, Spec.relevant_dims. lia.
Qed.

End Point.

End LargestVariance.

(** ** Inputs on which every score is zero *)
Section ZeroScores.
Import SNN Scorer Detector.
Context `{!ArgSort} `{!Scheduler} `{!Collaborators}.
Local Open Scope R_scope.

Lemma snn_row_length ind r _count i row :
  _snn_imp ind r = Some _count → _count !! i = Some row → length row = r.
Proof.
  intros Hc Hrow.
  destruct (snn_imp_Some_row _ _ _ _ _ Hc Hrow) as [_ Hr].
  by apply assign_row_Some in Hr as [Hlen _].
Qed.

(** what a returned score vector was computed from *)
Lemma decision_function_Some self X h scores :
  (decision_function self X h).1 = Some scores →
  ∃ det ind ref_inds,
    h !! self = Some det ∧
    kneighbors (n_neighbors_ det) X = Some ind ∧
    (0 ≤ ref_set_ det)%Z ∧
    _snn_imp ind (Z.to_nat (ref_set_ det)) = Some ref_inds ∧
    sod_loop (alpha_ det) (ref_set_ det) X ref_inds = Some scores.
Proof.
  rewrite decision_function_run. cbn [fst].
  destruct (h !! self) as [det|] eqn:Hdet; [|done].
  cbn [mbind option_bind]. unfold sod_of, call_snn_imp.
  destruct (kneighbors (n_neighbors_ det) X) as [ind|] eqn:Hknn; [|done].
  cbn [mbind option_bind].
  destruct (decide (0 ≤ ref_set_ det)%Z) as [Hpos|]; [|done].
  destruct (_snn_imp ind (Z.to_nat (ref_set_ det))) as [ref_inds|] eqn:Hsnn;
    [|done].
  cbn [mbind option_bind]. intros Hs. by exists det, ind, ref_inds.
Qed.

Lemma decision_function_returns self X h det ind :
  h !! self = Some det → kneighbors (n_neighbors_ det) X = Some ind →
  (0 ≤ ref_set_ det)%Z → (Z.to_nat (ref_set_ det) < length X)%nat →
  ∃ scores, (decision_function self X h).1 = Some scores
            ∧ length scores = length X.
Proof.
  intros Hdet Hknn Hpos Hn.
  destruct (kneighbors_shape _ _ _ Hknn) as [Hlen _].
  destruct (sod_loop_total (alpha_ det) (ref_set_ det) X ind
              (Z.to_nat (ref_set_ det)) Hlen Hn)
    as (ref_inds & scores & Hsnn & Hs).
  exists scores. split; [|by apply sod_loop_scores in Hs as [? _]].
  rewrite decision_function_run, Hdet. cbn [fst mbind option_bind].
  unfold sod_of, call_snn_imp. rewrite Hknn. cbn [mbind option_bind].
  rewrite decide_True by done. by rewrite Hsnn.
Qed.

(** the reference set of each scored point: [ref_set_] rows of [X] *)
Lemma scored_point self X h scores i s :
  (decision_function self X h).1 = Some scores → scores !! i = Some s →
  ∃ det obs ref,
    h !! self = Some det ∧ X !! i = Some obs ∧
    length ref = Z.to_nat (ref_set_ det) ∧ (∀ row, row ∈ ref → row ∈ X) ∧
    s = score (alpha_ det) (ref_set_ det) (shape1 X) ref obs.
Proof.
  intros (det & ind & ref_inds & Hdet & _ & _ & Hsnn & Hs)%decision_function_Some
    Hsi.
  assert (i < length X)%nat as Hi.
  { destruct (sod_loop_scores _ _ _ _ _ Hs) as [<- _]. by eapply lookup_lt_Some. }
  destruct (sod_loop_lookup _ _ _ _ _ i Hs Hi)
    as (obs & idx & ref & Hobs & Hidx & Href & Hsi').
  exists det, obs, ref. split; [done|]. split; [done|].
  split; [|split].
  - rewrite (take_rows_length _ _ _ Href). by eapply snn_row_length.
  - intros row. by apply (take_rows_elem X idx).
  - congruence.
Qed.

(** X5.  On one-dimensional data with [alpha_ <= 1] every score that
    [decision_function] returns is 0: the only dimension is the one of
    largest variance, so it is never relevant. *)
Theorem one_dimensional_scores_zero self (X : list (list R)) h det scores :
  h !! self = Some det → (0 < ref_set_ det)%Z → alpha_ det <= 1 →
  Forall (λ row, length row = 1%nat) X →
  (decision_function self X h).1 = Some scores →
  Forall (λ s, s = 0) scores.
Proof.
  intros Hdet Hr Ha HX Hrun. apply Forall_forall.
  intros s [i Hi]%list_elem_of_lookup.
  destruct (scored_point _ _ _ _ _ _ Hrun Hi)
    as (det' & obs & ref & Hdet' & Hobs & Hlen & Hsub & ->).
  assert (det' = det) as -> by congruence.
  assert (shape1 X = 1%nat) as Hd.
  { destruct X as [|row X]; [by rewrite lookup_nil in Hobs|].
    simpl. by apply Forall_cons in HX as [? _]. }
  rewrite Hd. apply score_zero.
  pose proof (rel_dim_nonneg (alpha_ det) (ref_set_ det) 1 ref).
  pose proof (rel_dim_below_d (alpha_ det) (Z.to_nat (ref_set_ det)) 1 ref)
    as Hlt.
  rewrite Z2Nat.id in Hlt by lia.
  enough (rel_dim (alpha_ det) (ref_set_ det) 1 ref < 1)%Z by lia.
  apply Hlt; [done| |lia|lia|done].
  apply Forall_forall. intros row Hrow%Hsub.
  rewrite Forall_forall in HX. by apply HX.
Qed.

(** X10.  The scores depend on the detector only through [n_neighbors_],
    [ref_set_] and [alpha_]: what an earlier [fit] stored in
    [decision_scores_], [threshold_] or [labels_] has no effect on what
    [decision_function] returns for [X]. *)
Theorem decision_function_ignores_fitted_state self (X : list (list R))
    (h h' : store) det det' :
  h !! self = Some det → h' !! self = Some det' →
  n_neighbors_ det = n_neighbors_ det' → ref_set_ det = ref_set_ det' →
  alpha_ det = alpha_ det' →
  (decision_function self X h).1 = (decision_function self X h').1.
Proof.
  intros Hdet Hdet' Hk Hr Ha. rewrite !decision_function_run, Hdet, Hdet'.
  simpl. unfold sod_of. by rewrite Hk, Hr, Ha.
Qed.

End ZeroScores.

Section ZeroScoresWitnesses.
Import SNN Scorer Detector.
Local Open Scope R_scope.

Lemma one_dimensional_scores_zero_witness :
  ∃ scores,
    (decision_function 1%positive [[5];[0];[2]] example_store).1 = Some scores ∧
    Forall (λ s, s = 0) scores.
Proof.
  destruct (decision_function_returns 1%positive [[5];[0];[2]] example_store
              example_detector [[1;2];[2;0];[0;1]]%Z) as [scores [Hs _]].
  - apply lookup_singleton_eq.
  - reflexivity.
  - simpl. lia.
  - simpl. lia.
  - exists scores. split; [exact Hs|].
    apply (one_dimensional_scores_zero 1%positive [[5];[0];[2]] example_store
             example_detector scores).
    + apply lookup_singleton_eq.
    + simpl. lia.
    + simpl. lra.
    + repeat constructor.
    + exact Hs.
Defined.

Lemma decision_function_ignores_fitted_state_witness :
  (decision_function 1%positive [[5;7];[0;1];[2;1]] example_store).1
  = (decision_function 1%positive [[5;7];[0;1];[2;1]]
       {[ 1%positive := set_decision_scores [0;0;0] example_detector ]}).1.
Proof.
  apply (decision_function_ignores_fitted_state 1%positive _ _ _
           example_detector (set_decision_scores [0;0;0] example_detector)).
  - apply lookup_singleton_eq.
  - apply lookup_singleton_eq.
  - reflexivity.
  - reflexivity.
  - reflexivity.
Defined.

End ZeroScoresWitnesses.

(** ** Bounds and monotonicity of the score *)
Section ScoreBounds.
Import Scorer.
Local Open Scope R_scope.



Lemma sum_marks_le (f g : R → Z) (l : list R) :
  (∀ x, (f x ≤ g x)%Z) →
  (foldr Z.add 0 (f <$> l) ≤ foldr Z.add 0 (g <$> l))%Z.
Proof.
  intros Hfg. induction l as [|x l IH]; [done|].
  rewrite !fmap_cons. cbn [foldr]. specialize (Hfg x). lia.
Qed.

Lemma var_total_nonneg (ref_set_ : Z) d ref :
  (0 < ref_set_)%Z → 0 <= var_total ref_set_ d ref.
Proof.
  intros Hr. unfold var_total. apply Rmult_le_pos.
  - apply np_sum_nonneg, Forall_concat, Forall_fmap, Forall_forall.
    intros row _. apply square_dev_nonneg.
  - apply Rlt_le, Rinv_0_lt_compat, IZR_lt, Hr.
Qed.

(** X7.  A larger [alpha_] admits at least the dimensions a smaller one
    admits: [var_expect] and with it [rel_dim] grow with [alpha_]. *)
Theorem rel_dim_grows_with_alpha (alpha1 alpha2 : R) (ref_set_ : Z)
    (d : nat) (ref : list (list R)) :
  (0 < ref_set_)%Z → alpha1 <= alpha2 →
  var_expect alpha1 ref_set_ d ref <= var_expect alpha2 ref_set_ d ref ∧
  (rel_dim alpha1 ref_set_ d ref ≤ rel_dim alpha2 ref_set_ d ref)%Z.
Proof.
  intros Hr Ha.
  assert (var_expect alpha1 ref_set_ d ref <= var_expect alpha2 ref_set_ d ref)
    as Hexp.
  { unfold var_expect, Rdiv.
    pose proof (var_total_nonneg ref_set_ d ref Hr) as Hvt.
    assert (0 <= / INR d) as Hd.
    { destruct d as [|d]; [simpl; rewrite Rinv_0; lra|].
      apply Rlt_le, Rinv_0_lt_compat, lt_0_INR. lia. }
    apply Rmult_le_compat_r; [done|]. by apply Rmult_le_compat_r. }
  split; [done|].
  unfold rel_dim, var_inds. apply sum_marks_le. intros x.
  destruct (Rlt_dec x (var_expect alpha1 ref_set_ d ref)),
           (Rlt_dec x (var_expect alpha2 ref_set_ d ref)); try lia.
  lra.
Qed.

Lemma rel_dim_grows_with_alpha_witness :
  var_expect (1/2) 2 2 [[0;1];[2;1]] <= var_expect (4/5) 2 2 [[0;1];[2;1]] ∧
  (rel_dim (1/2)%R 2 2 [[0;1];[2;1]]%R
   ≤ rel_dim (4/5)%R 2 2 [[0;1];[2;1]]%R)%Z.
Proof.
  apply rel_dim_grows_with_alpha.
  - lia.
  - lra.
Defined.

End ScoreBounds.




(** ** Arguments of the wrong type *)
Section ConstructorTypes.
Import Detector.
Local Open Scope R_scope.

(** X11.  The constructor refuses an [n_neighbors] or a [ref_set] that
    is not an [int] (20.0, [None]) and an [alpha] that is not a [float]
    (the int 1), whatever the value and whatever the other arguments. *)
Theorem init_rejects_wrong_types `{RangeDefaults}
    (contamination n_neighbors ref_set alpha : pyval) :
  int_value n_neighbors = None ∨ int_value ref_set = None
    ∨ float_value alpha = None →
  __init__ contamination n_neighbors ref_set alpha = None.
Proof.
  intros Htype. apply eq_None_not_Some. intros [det Hdet].
  apply init_Some in Hdet
    as (nn & rs & a & c & _ & _ & Hnn & _ & Hrs & _ & _ & -> & _).
  destruct Htype as [?|[?|?]]; simplify_eq/=.
Qed.

Lemma init_rejects_wrong_types_witness :
  @__init__ {| include_left := false; include_right := false |}
    (PyFloat (1/10)) (PyFloat 20) (PyInt 10) (PyFloat (4/5)) = None.
Proof.
  apply init_rejects_wrong_types. left. reflexivity.
Defined.

End ConstructorTypes.


(** ** [fit] and [decision_function] *)
Section FitClaims.
Import SNN Scorer Detector.
Local Open Scope R_scope.
Context `{!ArgSort} `{!Scheduler} `{!Collaborators}.

(** C9.  [decision_function] leaves the store as it found it, whether it
    returns or raises, and what it returns is the score vector of [X]
    under the configuration stored at [self]: the result of [_sod] on the
    reference sets that [_snn] builds from the neighbour search
    ([sod_of]); a returned vector has one entry per point, entry i being
    the score of [X[i]] against the rows of [X] listed in row i of the
    reference-set matrix; and it does return when the neighbour search
    answers and [1 <= ref_set_ < n].  Writing [decision_scores_] changes
    no other attribute.  [fit] returns exactly when [check_array] accepts
    [X], [_set_n_classes] returns, the scores of the validated matrix are
    computed, and [_process_decision_scores] returns on the store in which
    these scores have been written to [decision_scores_] of [self] (and to
    nothing else); what it returns is [self]. *)
Theorem fit_stores_scores_and_returns_self
    (self : positive) (X : list (list R)) (h : store) :
  (decision_function self X h).2 = h ∧
  decision_function self X h = (h !! self ≫= λ det, sod_of det X, h) ∧
  (∀ scores,
     (decision_function self X h).1 = Some scores →
     ∃ det ind ref_inds,
       h !! self = Some det ∧
       kneighbors (n_neighbors_ det) X = Some ind ∧
       _snn_imp ind (Z.to_nat (ref_set_ det)) = Some ref_inds ∧
       length scores = length X ∧
       ∀ i, (i < length X)%nat →
         ∃ obs idx ref,
           X !! i = Some obs ∧ ref_inds !! i = Some idx ∧
           take_rows X idx = Some ref ∧
           scores !! i
             = Some (score (alpha_ det) (ref_set_ det) (shape1 X) ref obs)) ∧
  (∀ det ind,
     h !! self = Some det → kneighbors (n_neighbors_ det) X = Some ind →
     (0 < ref_set_ det)%Z → (Z.to_nat (ref_set_ det) < length X)%nat →
     ∃ scores, decision_function self X h = (Some scores, h)
               ∧ length scores = length X) ∧
  (∀ scores det,
     decision_scores_ (set_decision_scores scores det) = Some scores ∧
     contamination (set_decision_scores scores det) = contamination det ∧
     n_neighbors_ (set_decision_scores scores det) = n_neighbors_ det ∧
     ref_set_ (set_decision_scores scores det) = ref_set_ det ∧
     alpha_ (set_decision_scores scores det) = alpha_ det ∧
     threshold_ (set_decision_scores scores det) = threshold_ det ∧
     labels_ (set_decision_scores scores det) = labels_ det) ∧
  (∀ returned h',
     fit self X h = (Some returned, h') ↔
     returned = self ∧
     ∃ X' h1 det scores,
       check_array X = Some X' ∧
       _set_n_classes self h = (Some tt, h1) ∧
       decision_function self X' h1 = (Some scores, h1) ∧
       h1 !! self = Some det ∧
       sod_of det X' = Some scores ∧
       _process_decision_scores self
         (<[self := set_decision_scores scores det]> h1) = (Some tt, h')).
Proof.
  split; [apply decision_function_frame|].
  split; [apply decision_function_run|].
  split.
  { intros scores
      (det & ind & ref_inds & Hdet & Hknn & _ & Hsnn & Hs)%decision_function_Some.
    exists det, ind, ref_inds. do 3 (split; [done|]).
    split; [by apply sod_loop_scores in Hs as [? _]|].
    intros i Hi. by apply sod_loop_lookup. }
  split.
  { intros det ind Hdet Hknn Hpos Hn.
    destruct (decision_function_returns self X h det ind Hdet Hknn
                ltac:(lia) Hn) as (scores & Hrun & Hlen).
    exists scores. split; [|done].
    pose proof (decision_function_frame self X h) as Hframe.
    destruct (decision_function self X h) as [o h2]. simpl in *. congruence. }
  split; [done|].
  intros returned h'. unfold fit, bind, lift, ret, setattr.
  destruct (check_array X) as [X'|] eqn:Hcheck; [|raised].
  destruct (_set_n_classes self h) as [[[]|] h1] eqn:Hset; [|raised].
  pose proof (decision_function_frame self X' h1) as Hframe.
  pose proof (decision_function_run self X' h1) as Hrun.
  destruct (decision_function self X' h1) as [[scores|] h2] eqn:Hdf;
    simpl in Hframe; subst h2; [|raised].
  destruct (h1 !! self) as [det|] eqn:Hdet; [|raised].
  cbn [mbind option_bind] in Hrun.
  destruct (_process_decision_scores self _) as [[[]|] h3] eqn:Hpost; [|raised].
  split.
  - intros [= <- <-]. split; [done|].
    exists X', h1, det, scores. repeat split; try done. congruence.
  - intros (-> & X'' & h1' & det' & scores' & HX & Hs & Hd & Hl & _ & Hp).
    simplify_eq. congruence.
Qed.

End FitClaims.

Section FitClaimsWitness.
Import SNN Scorer Detector.
Local Open Scope R_scope.

Lemma fit_stores_scores_and_returns_self_witness :
  ∃ scores,
    decision_function 1%positive [[5;7];[0;1];[2;1];[1;3];[4;0]] accepted_store
      = (Some scores, accepted_store) ∧
    length scores = length [[5;7];[0;1];[2;1];[1;3];[4;0]].
Proof.
  destruct (fit_stores_scores_and_returns_self 1%positive
              [[5;7];[0;1];[2;1];[1;3];[4;0]] accepted_store)
    as (_ & _ & _ & Hreturns & _).
  apply (Hreturns accepted_detector
           [[1;2;3];[2;3;4];[3;4;0];[4;0;1];[0;1;2]]%Z).
  - apply lookup_singleton_eq.
  - reflexivity.
  - simpl. lia.
  - simpl. lia.
Defined.

End FitClaimsWitness.


(** ** Where [decision_function] and [fit] can raise *)
Section Failures.
Import SNN Scorer Detector.
Context `{!ArgSort} `{!Scheduler} `{!Collaborators}.
Local Open Scope R_scope.

(** X15.  When the neighbour search answers and [1 <= ref_set_ < n],
    [decision_function] returns: neither the row assignment of [_snn_imp]
    nor the indexing [X[ref_inds[i,],]] raises.  The result has one entry
    per point, and entry i is the score of [X[i]] against the [ref_set_]
    rows of [X] that row i of the reference-set matrix lists. *)
Theorem decision_function_returns_scores self (X : list (list R)) h det ind :
  h !! self = Some det → kneighbors (n_neighbors_ det) X = Some ind →
  (0 < ref_set_ det)%Z → (Z.to_nat (ref_set_ det) < length X)%nat →
  ∃ ref_inds scores,
    _snn_imp ind (Z.to_nat (ref_set_ det)) = Some ref_inds ∧
    (decision_function self X h).1 = Some scores ∧
    length scores = length X ∧
    ∀ i, (i < length X)%nat →
      ∃ obs idx ref,
        X !! i = Some obs ∧ ref_inds !! i = Some idx ∧
        take_rows X idx = Some ref ∧
        length ref = Z.to_nat (ref_set_ det) ∧
        scores !! i
          = Some (score (alpha_ det) (ref_set_ det) (shape1 X) ref obs).
Proof.
  intros Hdet Hknn Hpos Hn.
  destruct (decision_function_returns self X h det ind Hdet Hknn
              ltac:(lia) Hn) as (scores & Hrun & Hlen).
  destruct (decision_function_Some _ _ _ _ Hrun)
    as (det' & ind' & ref_inds & Hdet' & Hknn' & _ & Hsnn & Hs).
  assert (det' = det) as -> by congruence.
  assert (ind' = ind) as -> by congruence.
  exists ref_inds, scores. split; [done|]. split; [done|]. split; [done|].
  intros i Hi.
  destruct (sod_loop_lookup _ _ _ _ _ i Hs Hi)
    as (obs & idx & ref & Hobs & Hidx & Href & Hsi).
  exists obs, idx, ref. repeat split; try done.
  rewrite (take_rows_length _ _ _ Href). by eapply snn_row_length.
Qed.

(** X14.  If scoring the validated matrix raises, [fit] raises and has
    written nothing: the store is the one [_set_n_classes] returned, with
    [decision_scores_] as it was. *)
Theorem fit_raises_without_writing self (X X' : list (list R)) h h1 :
  check_array X = Some X' → _set_n_classes self h = (Some tt, h1) →
  (decision_function self X' h1).1 = None →
  fit self X h = (None, h1).
Proof.
  intros Hcheck Hset Hnone. unfold fit, bind, lift.
  rewrite Hcheck, Hset.
  pose proof (decision_function_frame self X' h1) as Hframe.
  destruct (decision_function self X' h1) as [[scores|] h2]; simpl in *;
    [done|by subst].
Qed.

End Failures.

Section FailuresWitnesses.
Import SNN Scorer Detector.
Local Open Scope R_scope.

Lemma decision_function_returns_scores_witness :
  ∃ ref_inds scores,
    _snn_imp [[1;2;3];[2;3;4];[3;4;0];[4;0;1];[0;1;2]]%Z
      (Z.to_nat (ref_set_ accepted_detector)) = Some ref_inds ∧
    (decision_function 1%positive [[5;7];[0;1];[2;1];[1;3];[4;0]]
       accepted_store).1 = Some scores ∧
    length scores = length [[5;7];[0;1];[2;1];[1;3];[4;0]] ∧
    ∀ i, (i < length [[5;7];[0;1];[2;1];[1;3];[4;0]])%nat →
      ∃ obs idx ref,
        [[5;7];[0;1];[2;1];[1;3];[4;0]] !! i = Some obs ∧
        ref_inds !! i = Some idx ∧
        take_rows [[5;7];[0;1];[2;1];[1;3];[4;0]] idx = Some ref ∧
        length ref = Z.to_nat (ref_set_ accepted_detector) ∧
        scores !! i
          = Some (score (alpha_ accepted_detector) (ref_set_ accepted_detector)
                    (shape1 [[5;7];[0;1];[2;1];[1;3];[4;0]]) ref obs).
Proof.
  apply (decision_function_returns_scores 1%positive
           [[5;7];[0;1];[2;1];[1;3];[4;0]] accepted_store accepted_detector
           [[1;2;3];[2;3;4];[3;4;0];[4;0;1];[0;1;2]]%Z).
  - apply lookup_singleton_eq.
  - reflexivity.
  - simpl. lia.
  - simpl. lia.
Defined.

Lemma fit_raises_without_writing_witness :
  fit 1%positive [[5;7]] example_store = (None, example_store).
Proof.
  apply (fit_raises_without_writing 1%positive [[5;7]] [[5;7]]).
  - reflexivity.
  - reflexivity.
  - rewrite decision_function_run. reflexivity.
Defined.

End FailuresWitnesses.
